(** * A shallow embedding of the sbrk-style allocator of [src/allocation/main.cpp]

    The allocator keeps a singly linked chain of block headers inside a
    region grown with [sbrk], and offers five placement policies
    (first-fit, next-fit, best-fit, explicit free list, segregated lists),
    block splitting and forward coalescing.

    Conventions of the embedding (LP64, as the traces in the source assume:
    [sizeof(word_t) = 8]):
    - a [size_t] is a [Z] in [0, 2^64); every arithmetic operation of the
      source on [size_t] is followed by [wrap];
    - an [(int)] cast is [to_int] (two's complement truncation to 32 bits);
    - a [Block *] is a [Z], with [nullptr = 0];
    - the memory is a store of block headers, [gmap Z Block.t], keyed by the
      address of the header;
    - every function that touches the globals is a state transformer that
      can finish ([Done]), run into undefined behaviour of C++
      ([Undefined]: a null dereference, a read of memory that holds no
      header, an index outside an array), or exhaust the fuel given to a
      [while] loop ([OutOfFuel]). *)

From stdpp Require Import base option list gmap.
From Stdlib Require Import ZArith Lia.

Open Scope Z_scope.

(** ** Machine arithmetic *)

Module Machine.

(** [sizeof(word_t)], with [word_t = uintptr_t]. *)
Definition sizeof_word : Z := 8.

(** [sizeof(Block)]: [size_t], [bool] padded to a word, [Block *] and one
    payload word. *)
Definition sizeof_Block : Z := 32.

(** [sizeof(std::declval<Block>().data)]: the one payload word that is
    part of the struct. *)
Definition sizeof_data : Z := 8.

Definition size_max : Z := 2 ^ 64 - 1.

(** Arithmetic on [size_t] is modulo [2^64]. *)
Definition wrap (x : Z) : Z := x mod 2 ^ 64.

(** The cast [(int)x] of an unsigned value. *)
Definition to_int (x : Z) : Z := (x + 2 ^ 31) mod 2 ^ 32 - 2 ^ 31.

(** The conversion of a [size_t] argument to the [intptr_t] parameter of
    [sbrk]. *)
Definition to_intptr (x : Z) : Z := (x + 2 ^ 63) mod 2 ^ 64 - 2 ^ 63.

End Machine.

Import Machine.

(** ** Pure helpers of the source *)

(** [inline size_t align(size_t x)]:
    [(x + sizeof(word_t) - 1) & ~(sizeof(word_t) - 1)]. *)
Definition align (x : Z) : Z :=
  Z.land (wrap (x + sizeof_word - 1)) (wrap (Z.lnot (sizeof_word - 1))).

(** [inline size_t allocSize(size_t size)]:
    [sizeof(Block) + size - sizeof(std::declval<Block>().data)]. *)
Definition allocSize (size : Z) : Z :=
  wrap (sizeof_Block + size - sizeof_data).

(** [inline int getBucket(size_t size)]: [size / sizeof(word_t) - 1],
    computed on [size_t] and converted to the [int] result. *)
Definition getBucket (size : Z) : Z :=
  to_int (wrap (size / sizeof_word - 1)).

(** The comparison of [canSplit], on the size stored in the block:
    [(int)(allocSize(block->size) - size) >= (int)sizeof(Block)]. *)
Definition canSplit_sizes (block_size size : Z) : bool :=
  bool_decide (to_int sizeof_Block <= to_int (wrap (allocSize block_size - size))).

(** The size [split] gives to the remainder:
    [block->size - allocSize(size)]. *)
Definition split_remainder (block_size size : Z) : Z :=
  wrap (block_size - allocSize size).

(** ** The data model *)

Module Block.

(** [struct Block]: the object header. The payload word [data] is the
    address just after the header and carries no allocator state. *)
Record t : Type := mk { size : Z; used : bool; next : Z }.

(** Memory handed out by the operating system is zero-filled. *)
Definition zeroed : t := mk 0 false 0.

Definition set_size (v : Z) (b : t) : t := mk v (used b) (next b).
Definition set_used (v : bool) (b : t) : t := mk (size b) v (next b).
Definition set_next (v : Z) (b : t) : t := mk (size b) (used b) v.

End Block.

(** [enum class SearchMode]. *)
Inductive SearchMode : Type :=
  | FirstFit
  | NextFit
  | BestFit
  | FreeList
  | SegregatedList.

#[global] Instance SearchMode_eq_dec : EqDecision SearchMode.
Proof. solve_decision. Defined.

(** The null pointer. *)
Definition nullptr : Z := 0.

(** The number of entries of [segregatedLists] and [segregatedTops]. *)
Definition bucket_count : nat := 5.

(** The globals of the memory manager, the header store, and the program
    break with the highest value the operating system will grant it. *)
Record State : Type := mkState {
  memory : gmap Z Block.t;
  heapStart : Z;
  top : Z;
  searchMode : SearchMode;
  searchStart : Z;
  free_list : list Z;
  segregatedLists : list Z;
  segregatedTops : list Z;
  program_break : Z;
  break_limit : Z
}.

Definition with_memory (m : gmap Z Block.t) (s : State) : State :=
  mkState m (heapStart s) (top s) (searchMode s) (searchStart s) (free_list s)
          (segregatedLists s) (segregatedTops s) (program_break s) (break_limit s).
Definition with_heapStart (v : Z) (s : State) : State :=
  mkState (memory s) v (top s) (searchMode s) (searchStart s) (free_list s)
          (segregatedLists s) (segregatedTops s) (program_break s) (break_limit s).
Definition with_top (v : Z) (s : State) : State :=
  mkState (memory s) (heapStart s) v (searchMode s) (searchStart s) (free_list s)
          (segregatedLists s) (segregatedTops s) (program_break s) (break_limit s).
Definition with_searchMode (v : SearchMode) (s : State) : State :=
  mkState (memory s) (heapStart s) (top s) v (searchStart s) (free_list s)
          (segregatedLists s) (segregatedTops s) (program_break s) (break_limit s).
Definition with_searchStart (v : Z) (s : State) : State :=
  mkState (memory s) (heapStart s) (top s) (searchMode s) v (free_list s)
          (segregatedLists s) (segregatedTops s) (program_break s) (break_limit s).
Definition with_free_list (v : list Z) (s : State) : State :=
  mkState (memory s) (heapStart s) (top s) (searchMode s) (searchStart s) v
          (segregatedLists s) (segregatedTops s) (program_break s) (break_limit s).
Definition with_segregatedLists (v : list Z) (s : State) : State :=
  mkState (memory s) (heapStart s) (top s) (searchMode s) (searchStart s) (free_list s)
          v (segregatedTops s) (program_break s) (break_limit s).
Definition with_segregatedTops (v : list Z) (s : State) : State :=
  mkState (memory s) (heapStart s) (top s) (searchMode s) (searchStart s) (free_list s)
          (segregatedLists s) v (program_break s) (break_limit s).
Definition with_program_break (v : Z) (s : State) : State :=
  mkState (memory s) (heapStart s) (top s) (searchMode s) (searchStart s) (free_list s)
          (segregatedLists s) (segregatedTops s) v (break_limit s).

(** The static initialisers of the globals, in a process whose break is
    [break] and may grow up to [limit]. *)
Definition initial_state (break limit : Z) : State :=
  mkState ∅ nullptr nullptr FirstFit nullptr []
          (replicate bucket_count nullptr) (replicate bucket_count nullptr)
          break limit.

(** ** Computations over the globals *)

(** What C++ leaves undefined and the source can run into. *)
Inductive fault : Type :=
  | NullDereference
  | NoHeaderAt (address : Z)
  | IndexOutOfBounds (index : Z).

Inductive outcome (A : Type) : Type :=
  | Done (a : A) (s : State)
  | Undefined (f : fault)
  | OutOfFuel.

Arguments Done {A} a s.
Arguments Undefined {A} f.
Arguments OutOfFuel {A}.

Definition M (A : Type) : Type := State -> outcome A.

Definition ret {A} (a : A) : M A := fun s => Done a s.

Definition bind {A B} (c : M A) (k : A -> M B) : M B :=
  fun s =>
    match c s with
    | Done a s' => k a s'
    | Undefined f => Undefined f
    | OutOfFuel => OutOfFuel
    end.

Declare Scope alloc_scope.
Delimit Scope alloc_scope with alloc.
Notation "x <- c ;; k" := (bind c (fun x => k))
  (at level 100, c at next level, right associativity) : alloc_scope.
Notation "c ;; k" := (bind c (fun _ => k))
  (at level 100, right associativity) : alloc_scope.
Open Scope alloc_scope.

Definition get {A} (field : State -> A) : M A := fun s => Done (field s) s.
Definition modify (f : State -> State) : M unit := fun s => Done tt (f s).
Definition undefined {A} (f : fault) : M A := fun _ => Undefined f.
Definition out_of_fuel {A} : M A := fun _ => OutOfFuel.

(** Reading the header behind a [Block *]. *)
Definition load (p : Z) : M Block.t :=
  fun s =>
    if decide (p = nullptr) then Undefined NullDereference
    else match memory s !! p with
         | Some b => Done b s
         | None => Undefined (NoHeaderAt p)
         end.

(** Writing one field of the header behind a [Block *]. A write to memory
    that held no header yet leaves the other fields as the operating
    system delivered them. *)
Definition stored (p : Z) (update : Block.t -> Block.t) (s : State) : State :=
  with_memory (<[p := update (default Block.zeroed (memory s !! p))]> (memory s)) s.

Definition store (p : Z) (update : Block.t -> Block.t) : M unit :=
  fun s =>
    if decide (p = nullptr) then Undefined NullDereference
    else Done tt (stored p update s).

(** [table[i]] on one of the two bucket tables, with an [int] index. *)
Definition array_get (table : State -> list Z) (i : Z) : M Z :=
  fun s =>
    if decide (0 <= i) then
      match table s !! Z.to_nat i with
      | Some v => Done v s
      | None => Undefined (IndexOutOfBounds i)
      end
    else Undefined (IndexOutOfBounds i).

(** [table[i] = v]. *)
Definition array_set (table : State -> list Z) (with_table : list Z -> State -> State)
    (i v : Z) : M unit :=
  fun s =>
    if decide (0 <= i) then
      match table s !! Z.to_nat i with
      | Some _ => Done tt (with_table (<[Z.to_nat i := v]> (table s)) s)
      | None => Undefined (IndexOutOfBounds i)
      end
    else Undefined (IndexOutOfBounds i).

(** [std::list::push_back] and [std::list::remove] (every occurrence). *)
Definition push_back (p : Z) (l : list Z) : list Z := l ++ [p].
Definition list_remove (p : Z) (l : list Z) : list Z := filter (λ q, q ≠ p) l.

(** ** The backing store *)

(** [sbrk(increment)]: the old break, or [-1] when the operating system
    refuses to raise the break above [break_limit]. *)
Definition sbrk (increment : Z) : M Z :=
  fun s =>
    if decide (increment <= 0 \/ program_break s + increment <= break_limit s)
    then Done (program_break s) (with_program_break (program_break s + increment) s)
    else Done (-1) s.

(** [Block *requestFromOS(size_t size)]. *)
Definition requestFromOS (size : Z) : M Z :=
  block <- sbrk 0 ;;
  r <- sbrk (to_intptr (allocSize size)) ;;
  if decide (r = -1) then ret nullptr else ret block.

(** ** Splitting *)

(** [Block *split(Block *block, size_t size)]. *)
Definition split (block size : Z) : M Z :=
  let freePart := block + allocSize size in
  b <- load block ;;
  store freePart (Block.set_size (wrap (Block.size b - allocSize size))) ;;
  store freePart (Block.set_used false) ;;
  b <- load block ;;
  store freePart (Block.set_next (Block.next b)) ;;
  store block (Block.set_size size) ;;
  store block (Block.set_next freePart) ;;
  mode <- get searchMode ;;
  (if decide (mode = FreeList)
   then modify (fun s => with_free_list (push_back block (free_list s)) s)
   else ret tt) ;;
  ret block.

(** [inline bool canSplit(Block *block, size_t size)]. *)
Definition canSplit (block size : Z) : M bool :=
  b <- load block ;;
  ret (canSplit_sizes (Block.size b) size).

(** [Block *listAllocate(Block *block, size_t size)]. *)
Definition listAllocate (block size : Z) : M Z :=
  mode <- get searchMode ;;
  can <- (if decide (mode ≠ SegregatedList) then canSplit block size else ret false) ;;
  block <- (if can : bool then split block size else ret block) ;;
  store block (Block.set_used true) ;;
  store block (Block.set_size size) ;;
  ret block.

(** ** Placement strategies *)

(** The [while] loop of [firstFit]; [block] is the loop variable. *)
Fixpoint firstFit_loop (fuel : nat) (size block : Z) : M Z :=
  match fuel with
  | O => out_of_fuel
  | S fuel' =>
      if decide (block = nullptr) then ret nullptr
      else
        b <- load block ;;
        if Block.used b || bool_decide (Block.size b < size)
        then firstFit_loop fuel' size (Block.next b)
        else listAllocate block size
  end.

(** [Block *firstFit(size_t size)]. *)
Definition firstFit (fuel : nat) (size : Z) : M Z :=
  block <- get heapStart ;;
  firstFit_loop fuel size block.

(** The [while] loop of [nextFit]; a [break] leaves it with [nullptr]. *)
Fixpoint nextFit_loop (fuel : nat) (size start block : Z) : M Z :=
  match fuel with
  | O => out_of_fuel
  | S fuel' =>
      if decide (block = nullptr) then ret nullptr
      else
        b <- load block ;;
        if Block.used b || bool_decide (Block.size b < size)
        then
          let block := Block.next b in
          block <- (if decide (block = nullptr) then get heapStart else ret block) ;;
          if decide (block = start) then ret nullptr
          else nextFit_loop fuel' size start block
        else
          modify (with_searchStart block) ;;
          listAllocate block size
  end.

(** [Block *nextFit(size_t size)]. *)
Definition nextFit (fuel : nat) (size : Z) : M Z :=
  cursor <- get searchStart ;;
  (if decide (cursor = nullptr)
   then hs <- get heapStart ;; modify (with_searchStart hs)
   else ret tt) ;;
  start <- get searchStart ;;
  nextFit_loop fuel size start start.

(** The [while] loop of [bestFit]; [block] and [best] are the loop
    variables, the result is [best] when the loop is left. *)
Fixpoint bestFit_loop (fuel : nat) (size block best : Z) : M Z :=
  match fuel with
  | O => out_of_fuel
  | S fuel' =>
      if decide (block = nullptr) then ret best
      else
        b <- load block ;;
        if Block.used b || bool_decide (Block.size b < size)
        then bestFit_loop fuel' size (Block.next b) best
        else
          smaller <- (if decide (best = nullptr) then ret true
                      else bb <- load best ;;
                           ret (bool_decide (Block.size b < Block.size bb))) ;;
          if smaller : bool
          then bestFit_loop fuel' size (Block.next b) block
          else bestFit_loop fuel' size block best
  end.

(** [Block *bestFit(size_t size)]. *)
Definition bestFit (fuel : nat) (size : Z) : M Z :=
  block <- get heapStart ;;
  best <- bestFit_loop fuel size block nullptr ;;
  if decide (best = nullptr) then ret nullptr
  else listAllocate best size.

(** The range-[for] of [freeList] over [free_list]. *)
Fixpoint freeList_scan (l : list Z) (size : Z) : M Z :=
  match l with
  | [] => ret nullptr
  | block :: rest =>
      b <- load block ;;
      if bool_decide (size <= Block.size b) then ret block
      else freeList_scan rest size
  end.

(** [Block *freeList(size_t size)]. *)
Definition freeList (size : Z) : M Z :=
  l <- get free_list ;;
  foundBlock <- freeList_scan l size ;;
  if decide (foundBlock ≠ nullptr) then
    modify (fun s => with_free_list (list_remove foundBlock (free_list s)) s) ;;
    listAllocate foundBlock size
  else ret nullptr.

(** [Block *segregatedFit(size_t size)]. *)
Definition segregatedFit (fuel : nat) (size : Z) : M Z :=
  let bucket := getBucket size in
  originalHeapStart <- get heapStart ;;
  head <- array_get segregatedLists bucket ;;
  modify (with_heapStart head) ;;
  block <- firstFit fuel size ;;
  modify (with_heapStart originalHeapStart) ;;
  ret block.

(** [Block *findBlock(size_t size)]. *)
Definition findBlock (fuel : nat) (size : Z) : M Z :=
  mode <- get searchMode ;;
  match mode with
  | FirstFit => firstFit fuel size
  | NextFit => nextFit fuel size
  | BestFit => bestFit fuel size
  | FreeList => freeList size
  | SegregatedList => segregatedFit fuel size
  end.

(** ** Coalescing *)

(** [Block *coalesce(Block *block)]. *)
Definition coalesce (block : Z) : M Z :=
  b <- load block ;;
  n <- load (Block.next b) ;;
  (if negb (Block.used n) then
     tp <- get top ;;
     (if decide (Block.next b = tp) then modify (with_top block) else ret tt) ;;
     b <- load block ;;
     n <- load (Block.next b) ;;
     store block (Block.set_size (wrap (Block.size b + Block.size n))) ;;
     b <- load block ;;
     n <- load (Block.next b) ;;
     store block (Block.set_next (Block.next n))
   else ret tt) ;;
  ret block.

(** [bool canCoalesce(Block *block)]. *)
Definition canCoalesce (block : Z) : M bool :=
  b <- load block ;;
  if decide (Block.next b = nullptr) then ret false
  else n <- load (Block.next b) ;; ret (negb (Block.used n)).

(** ** The allocator facade *)

(** [block->data]: the address of the payload. *)
Definition data_of (block : Z) : Z := block + (sizeof_Block - sizeof_data).

(** [Block *getHeader(word_t *data)]. *)
Definition getHeader (data : Z) : Z := data + sizeof_data - sizeof_Block.

(** [void resetHeap()]; [brk] moves the break and leaves the memory
    below and above it as it is. *)
Definition resetHeap : M unit :=
  hs <- get heapStart ;;
  if decide (hs = nullptr) then ret tt
  else
    modify (with_program_break hs) ;;
    modify (with_heapStart nullptr) ;;
    modify (with_top nullptr) ;;
    modify (with_searchStart nullptr).

(** [void init(SearchMode mode)]. *)
Definition init (mode : SearchMode) : M unit :=
  modify (with_searchMode mode) ;;
  resetHeap.

(** [word_t *alloc(size_t size)]. *)
Definition alloc (fuel : nat) (size : Z) : M Z :=
  let size := align size in
  found <- findBlock fuel size ;;
  if decide (found ≠ nullptr) then ret (data_of found)
  else
    block <- requestFromOS size ;;
    store block (Block.set_size size) ;;
    store block (Block.set_used true) ;;
    mode <- get searchMode ;;
    (if decide (mode = SegregatedList) then
       let bucket := getBucket size in
       head <- array_get segregatedLists bucket ;;
       (if decide (head = nullptr)
        then array_set segregatedLists with_segregatedLists bucket block
        else ret tt) ;;
       tail <- array_get segregatedTops bucket ;;
       (if decide (tail ≠ nullptr) then store tail (Block.set_next block) else ret tt) ;;
       array_set segregatedTops with_segregatedTops bucket block
     else
       hs <- get heapStart ;;
       (if decide (hs = nullptr) then modify (with_heapStart block) else ret tt) ;;
       tp <- get top ;;
       (if decide (tp ≠ nullptr) then store tp (Block.set_next block) else ret tt) ;;
       modify (with_top block)) ;;
    ret (data_of block).

(** [void free(word_t *data)]. *)
Definition free (data : Z) : M unit :=
  let block := getHeader data in
  mode <- get searchMode ;;
  can <- (if decide (mode ≠ SegregatedList) then canCoalesce block else ret false) ;;
  block <- (if can : bool then coalesce block else ret block) ;;
  store block (Block.set_used false) ;;
  if decide (mode = FreeList)
  then modify (fun s => with_free_list (push_back block (free_list s)) s)
  else ret tt.

(** ** Traversal *)

(** The [while] loop of [visit]. The callback is any computation over the
    globals that folds the visited block into an accumulator. *)
Fixpoint visit_loop {A} (fuel : nat) (callback : Z -> A -> M A) (block : Z) (acc : A) : M A :=
  match fuel with
  | O => out_of_fuel
  | S fuel' =>
      if decide (block = nullptr) then ret acc
      else
        acc <- callback block acc ;;
        b <- load block ;;
        visit_loop fuel' callback (Block.next b) acc
  end.

(** [void visit(callback)]. *)
Definition visit {A} (fuel : nat) (callback : Z -> A -> M A) (acc : A) : M A :=
  block <- get heapStart ;;
  visit_loop fuel callback block acc.

(** The range-[for] of [segregatedTraverse] over the entries
    [bucket, bucket + 1, ...] of [segregatedLists], [count] of them. *)
Fixpoint segregatedTraverse_from {A} (fuel : nat) (callback : Z -> A -> M A)
    (count : nat) (bucket : Z) (acc : A) : M A :=
  match count with
  | O => ret acc
  | S count' =>
      originalHeapStart <- get heapStart ;;
      block <- array_get segregatedLists bucket ;;
      modify (with_heapStart block) ;;
      acc <- visit fuel callback acc ;;
      modify (with_heapStart originalHeapStart) ;;
      segregatedTraverse_from fuel callback count' (bucket + 1) acc
  end.

(** [void segregatedTraverse(callback)]. *)
Definition segregatedTraverse {A} (fuel : nat) (callback : Z -> A -> M A) (acc : A) : M A :=
  segregatedTraverse_from fuel callback bucket_count 0 acc.

(** [void traverse(callback)]. *)
Definition traverse {A} (fuel : nat) (callback : Z -> A -> M A) (acc : A) : M A :=
  mode <- get searchMode ;;
  if decide (mode = SegregatedList) then segregatedTraverse fuel callback acc
  else visit fuel callback acc.

(** The callback that records the address of every block it is given. *)
Definition record_block (block : Z) (seen : list Z) : M (list Z) :=
  ret (seen ++ [block]).

(** The callback of [printBlocks]: it reads the size and the used flag of
    the block. *)
Definition print_block (block : Z) (out : list (Z * bool)) : M (list (Z * bool)) :=
  b <- load block ;;
  ret (out ++ [(Block.size b, Block.used b)]).

(** [headerOf(handle)] of the specification: the header behind a payload
    handle, when there is one. *)
Definition headerOf (s : State) (handle : Z) : option Block.t :=
  memory s !! getHeader handle.

(** ** Chains *)

(** [chain m p l]: following the [next] links from [p] through the headers
    of [m] visits exactly the blocks [l] and then reaches [nullptr]. *)
Inductive chain (m : gmap Z Block.t) : Z -> list Z -> Prop :=
  | chain_end : chain m nullptr []
  | chain_link p b l :
      p <> nullptr -> m !! p = Some b -> chain m (Block.next b) l ->
      chain m p (p :: l).

(** ** Sessions *)

(** The state a computation leaves behind when it finishes (the initial
    state otherwise). *)
Definition state_after {A} (c : M A) (s : State) : State :=
  match c s with
  | Done _ s' => s'
  | _ => s
  end.

(** A fresh process whose break can grow by some 60 kilobytes. *)
Definition fresh_process : State := initial_state 4096 65536.

(** The next-fit session of [main], up to the two calls of [free]:
    three blocks of 8 bytes, two of 16, the two of 16 freed again. *)
Definition next_fit_session (fuel : nat) : M unit :=
  init NextFit ;;
  alloc fuel 8 ;;
  alloc fuel 8 ;;
  alloc fuel 8 ;;
  o1 <- alloc fuel 16 ;;
  o2 <- alloc fuel 16 ;;
  free o1 ;;
  free o2.

(** The segregated session of [main], up to the calls of [free]. *)
Definition segregated_session (fuel : nat) : M unit :=
  init SegregatedList ;;
  alloc fuel 3 ;;
  alloc fuel 8 ;;
  alloc fuel 16 ;;
  alloc fuel 8 ;;
  alloc fuel 32 ;;
  ret tt.

(** Three blocks of 8 bytes in first-fit mode, the third one freed. *)
Definition coalescing_session (fuel : nat) : M unit :=
  init FirstFit ;;
  alloc fuel 8 ;;
  alloc fuel 8 ;;
  p3 <- alloc fuel 8 ;;
  free p3.

(** ** Vocabulary of the properties *)

(** [carries s p size used]: the header at [p] records [size] and [used]. *)
Definition carries (s : State) (p size : Z) (used : bool) : Prop :=
  exists b, memory s !! p = Some b /\ Block.size b = size /\ Block.used b = used.

(** The globals other than the memory and the free list. *)
Definition same_cursors (s s' : State) : Prop :=
  heapStart s' = heapStart s /\ top s' = top s /\
  searchMode s' = searchMode s /\ searchStart s' = searchStart s /\
  segregatedLists s' = segregatedLists s /\ segregatedTops s' = segregatedTops s /\
  program_break s' = program_break s /\ break_limit s' = break_limit s.

(** The outcome of a search for [size] bytes: the globals other than the
    cursor of next-fit, the memory and the free list are as before; a block
    that was found carries the requested size and is in use; a miss leaves
    the memory and the free list as they were. *)
Definition find_post (size : Z) (s : State) (r : Z) (s' : State) : Prop :=
  same_cursors (with_searchStart (searchStart s') s) s' /\
  (r <> nullptr -> carries s' r size true) /\
  (r = nullptr -> memory s' = memory s /\ free_list s' = free_list s).

(** The same for the strategies that have no cursor. *)
Definition scan_post (size : Z) (s : State) (r : Z) (s' : State) : Prop :=
  same_cursors s s' /\
  (r <> nullptr -> carries s' r size true) /\
  (r = nullptr -> memory s' = memory s /\ free_list s' = free_list s).

(** The cursor a next-fit search starts from: an unset cursor stands for
    the start of the chain. *)
Definition cursor_of (s : State) : Z :=
  if decide (searchStart s = nullptr) then heapStart s else searchStart s.

(** The session [init(FreeList); p = alloc(64); free(p); q = alloc(8)]. *)
Definition free_list_session (fuel : nat) : M Z :=
  init FreeList ;;
  p <- alloc fuel 64 ;;
  free p ;;
  alloc fuel 8.

(** The bytes a block of payload [block_size] has left once a block of
    payload [size] is carved out of it, header included. *)
Definition bytes_left (block_size size : Z) : Z :=
  allocSize block_size - allocSize size.

(** A header with a payload of length zero. *)
Definition bare_header : Z := allocSize 0.

(** The session [init(FirstFit); p = alloc(16); free(p); q = alloc(8)]. *)
Definition tight_split_session (fuel : nat) : M Z :=
  init FirstFit ;;
  p <- alloc fuel 16 ;;
  free p ;;
  alloc fuel 8.

(** The chain [free 16] -> [used 8] -> [free 16] in best-fit mode. *)
Definition two_equal_free_blocks : State :=
  mkState (<[4096 := Block.mk 16 false 4136]>
             (<[4136 := Block.mk 8 true 4168]>
                (<[4168 := Block.mk 16 false nullptr]> ∅)))
          4096 4168 BestFit nullptr []
          (replicate bucket_count nullptr) (replicate bucket_count nullptr)
          4208 65536.

(** The session that builds it:
    [init(BestFit); a = alloc(16); alloc(8); c = alloc(16); free(a); free(c)]. *)
Definition two_equal_free_blocks_session (fuel : nat) : M unit :=
  init BestFit ;;
  a <- alloc fuel 16 ;;
  alloc fuel 8 ;;
  c <- alloc fuel 16 ;;
  free a ;;
  free c.

(** The state [coalesce] leaves when the successor is free. *)
Definition coalesced (block : Z) (b n : Block.t) (s : State) : State :=
  stored block (Block.set_next (Block.next n))
    (stored block (Block.set_size (wrap (Block.size b + Block.size n)))
       (if decide (Block.next b = top s) then with_top block s else s)).

(** The state [free] leaves when the successor is free. *)
Definition freed (block : Z) (b n : Block.t) (s : State) : State :=
  let s2 := stored block (Block.set_used false) (coalesced block b n s) in
  if decide (searchMode s = FreeList)
  then with_free_list (push_back block (free_list s2)) s2
  else s2.

(** [path R x l z]: [R] leads from [x] through the elements of [l], in
    order, and from the last of them to [z]. *)
Fixpoint path (R : Z -> Z -> Prop) (x : Z) (l : list Z) (z : Z) : Prop :=
  match l with
  | [] => R x z
  | y :: l' => R x y /\ path R y l' z
  end.

(** [links_to m x y]: [x] is a block at a positive address whose header
    in [m] has the [next] link [y]. *)
Definition links_to (m : gmap Z Block.t) (x y : Z) : Prop :=
  0 < x /\ exists b, m !! x = Some b /\ Block.next b = y.

(** [wraps_to m head x y]: the step of the scan of next-fit, which goes
    from the tail of the chain back to [head]. *)
Definition wraps_to (m : gmap Z Block.t) (head x y : Z) : Prop :=
  0 < x /\ exists b, m !! x = Some b /\
    y = (if decide (Block.next b = nullptr) then head else Block.next b).


(** ** Further vocabulary *)

(** The test by which the scans of first-fit, next-fit and best-fit pass
    over a block: [block->used || block->size < size]. *)
Definition skipped (size : Z) (b : Block.t) : bool :=
  Block.used b || bool_decide (Block.size b < size).


(** Every block of [l] has a header in [m] that the scans for [size] pass
    over. *)
Definition all_skipped (m : gmap Z Block.t) (size : Z) (l : list Z) : Prop :=
  forall x, x ∈ l -> exists b, m !! x = Some b /\ skipped size b = true.

(** Every entry of [l] has a header in [m] whose size is below [size]. *)
Definition all_too_small (m : gmap Z Block.t) (size : Z) (l : list Z) : Prop :=
  forall x, x ∈ l -> exists b, m !! x = Some b /\ Block.size b < size.

(** The best-fit session of [main] up to the two calls of [free]: blocks
    of 8, 64, 8 and 16 bytes, the one of 16 and the one of 64 freed. *)
Definition best_fit_session (fuel : nat) : M unit :=
  init BestFit ;;
  alloc fuel 8 ;;
  z1 <- alloc fuel 64 ;;
  alloc fuel 8 ;;
  z2 <- alloc fuel 16 ;;
  free z2 ;;
  free z1.

(** [descends m size bound l]: along [l], the sizes of the blocks that are
    free and hold [size] bytes decrease strictly, starting below [bound]
    when there is one. *)
Fixpoint descends (m : gmap Z Block.t) (size : Z) (bound : option Z) (l : list Z) : Prop :=
  match l with
  | [] => True
  | x :: l' =>
      exists b, m !! x = Some b /\
        if skipped size b then descends m size bound l'
        else match bound with
             | Some k => Block.size b < k
             | None => True
             end /\ descends m size (Some (Block.size b)) l'
  end.

(** The bound that the candidate [best] of the scan of best-fit sets. *)
Definition bound_of (m : gmap Z Block.t) (best : Z) (bound : option Z) : Prop :=
  (best = nullptr /\ bound = None) \/
  (best <> nullptr /\ exists bb, m !! best = Some bb /\ bound = Some (Block.size bb)).

(** The first-fit session of [main]. It ends with the split of the block
    of 128 bytes, which was the tail of the chain. *)
Definition first_fit_session (fuel : nat) : M unit :=
  init FirstFit ;;
  alloc fuel 3 ;;
  p2 <- alloc fuel 8 ;;
  free p2 ;;
  alloc fuel 8 ;;
  p4 <- alloc fuel 8 ;;
  p5 <- alloc fuel 8 ;;
  free p5 ;;
  free p4 ;;
  alloc fuel 16 ;;
  p7 <- alloc fuel 128 ;;
  free p7 ;;
  alloc fuel 8 ;;
  ret tt.


(** What [printBlocks] prints for the block at [p]: its size and its used
    flag. *)
Definition printed (m : gmap Z Block.t) (p : Z) : Z * bool :=
  match m !! p with
  | Some b => (Block.size b, Block.used b)
  | None => (0, false)
  end.


From stdpp Require sorting.

(** * The mark-sweep collector of [src/mark-sweep-garbage-collector/main.cpp]

    The collector keeps, for every object allocated through
    [Traceable::operator new], a header in the map [traceInfo]. What it
    reads from the machine, the words on the stack and inside the objects,
    is a parameter [read_word] of the embedding, as are the two ends of the
    stack that [getRoots] scans. *)

Module MarkSweep.

(** [struct ObjectHeader]. *)
Record ObjectHeader : Type := mkHeader { marked : bool; size : Z }.

(** A computation of the collector finishes, leaves through the
    [std::out_of_range] that [traceInfo.at] throws, or exhausts the fuel
    of the loop of [mark]. *)
Inductive outcome (A : Type) : Type :=
  | Finished (a : A)
  | Thrown (key : Z)
  | Exhausted.

Arguments Finished {A} a.
Arguments Thrown {A} key.
Arguments Exhausted {A}.

Section Collector.

(** The word that [*(uintptr_t * )p] reads at the byte address [p]. *)
Variable read_word : Z -> Z.

(** [Traceable::operator new], [object] being the address that
    [::operator new] returned: [std::map::insert] keeps an entry that is
    already there. *)
Definition operator_new (object size : Z) (traceInfo : gmap Z ObjectHeader)
    : gmap Z ObjectHeader :=
  match traceInfo !! object with
  | Some _ => traceInfo
  | None => <[object := mkHeader false size]> traceInfo
  end.

(** The loop shared by [getPointers] and [getRoots]: every byte address
    from [from] up to [from + count] is read as a word, and the words that
    are keys of [traceInfo] are collected in that order. *)
Definition scan (traceInfo : gmap Z ObjectHeader) (from count : Z) : list Z :=
  filter (fun address => is_Some (traceInfo !! address)) (read_word <$> seqZ from count).

(** [std::vector<Traceable *> getPointers(Traceable *object)]; [None]
    stands for the exception of [getHeader]. *)
Definition getPointers (traceInfo : gmap Z ObjectHeader) (object : Z) : option (list Z) :=
  match traceInfo !! object with
  | Some header => Some (scan traceInfo object (size header))
  | None => None
  end.

(** [std::vector<Traceable *> getRoots()], for a stack that reaches from
    [rsp] up to [stackBegin]. *)
Definition getRoots (rsp stackBegin : Z) (traceInfo : gmap Z ObjectHeader) : list Z :=
  scan traceInfo rsp (stackBegin - rsp).

(** The [while] loop of [mark]. The vector [worklist] is kept in reverse:
    its back is the head of the list. *)
Fixpoint mark_loop (fuel : nat) (worklist : list Z) (traceInfo : gmap Z ObjectHeader)
    : outcome (gmap Z ObjectHeader) :=
  match fuel with
  | O => Exhausted
  | S fuel' =>
      match worklist with
      | [] => Finished traceInfo
      | o :: worklist =>
          match traceInfo !! o with
          | None => Thrown o
          | Some header =>
              if marked header then mark_loop fuel' worklist traceInfo
              else
                let traceInfo := <[o := mkHeader true (size header)]> traceInfo in
                match getPointers traceInfo o with
                | None => Thrown o
                | Some pointers => mark_loop fuel' (reverse pointers ++ worklist) traceInfo
                end
          end
      end
  end.

(** [void mark()]. *)
Definition mark (fuel : nat) (rsp stackBegin : Z) (traceInfo : gmap Z ObjectHeader)
    : outcome (gmap Z ObjectHeader) :=
  mark_loop fuel (reverse (getRoots rsp stackBegin traceInfo)) traceInfo.

(** The loop of [sweep] over the keys of the map, in the order of the
    iterator; the objects handed to [delete] are recorded in that order. *)
Fixpoint sweep_keys (keys : list Z) (traceInfo : gmap Z ObjectHeader) (deleted : list Z)
    : gmap Z ObjectHeader * list Z :=
  match keys with
  | [] => (traceInfo, deleted)
  | key :: keys =>
      match traceInfo !! key with
      | Some header =>
          if marked header
          then sweep_keys keys (<[key := mkHeader false (size header)]> traceInfo) deleted
          else sweep_keys keys (delete key traceInfo) (deleted ++ [key])
      | None => sweep_keys keys traceInfo deleted
      end
  end.

(** The keys of [traceInfo] in the order in which a [std::map] iterates. *)
Definition keys_in_order (traceInfo : gmap Z ObjectHeader) : list Z :=
  sorting.merge_sort Z.le (map_to_list traceInfo).*1.

(** [void sweep()]. *)
Definition sweep (traceInfo : gmap Z ObjectHeader) : gmap Z ObjectHeader * list Z :=
  sweep_keys (keys_in_order traceInfo) traceInfo [].

(** [void gc()], without the two calls of [dump]. *)
Definition gc (fuel : nat) (rsp stackBegin : Z) (traceInfo : gmap Z ObjectHeader)
    : outcome (gmap Z ObjectHeader * list Z) :=
  match mark fuel rsp stackBegin traceInfo with
  | Finished traceInfo => Finished (sweep traceInfo)
  | Thrown key => Thrown key
  | Exhausted => Exhausted
  end.

(** What a scan finds: [target] is a key of [traceInfo] and is the word
    at one of the [count] byte addresses from [from] on. *)
Definition holds (traceInfo : gmap Z ObjectHeader) (from count target : Z) : Prop :=
  is_Some (traceInfo !! target) /\
  exists i, 0 <= i < count /\ read_word (from + i) = target.

(** A root is an object whose address is on the stack. *)
Definition root (rsp stackBegin : Z) (traceInfo : gmap Z ObjectHeader) (r : Z) : Prop :=
  holds traceInfo rsp (stackBegin - rsp) r.

(** Object [a] holds the address of object [b] within its [size] bytes. *)
Definition points_to (traceInfo : gmap Z ObjectHeader) (a b : Z) : Prop :=
  exists header, traceInfo !! a = Some header /\ holds traceInfo a (size header) b.

Definition reachable (rsp stackBegin : Z) (traceInfo : gmap Z ObjectHeader) (k : Z) : Prop :=
  exists r, root rsp stackBegin traceInfo r /\ rtc (points_to traceInfo) r k.

(** The work that is left for [mark]: every header that is not marked
    costs one turn of the loop for itself and one for each pointer that
    its object will put on the worklist. The scan is the one of
    [traceInfo0], the map at the start of [mark]. *)
Definition pending (traceInfo0 traceInfo : gmap Z ObjectHeader) : nat :=
  sum_list_with
    (fun entry : Z * ObjectHeader =>
       if marked entry.2 then 0%nat
       else S (length (scan traceInfo0 entry.1 (size entry.2))))
    (map_to_list traceInfo).

(** Turns of the loop that are enough for [mark] from any state of the
    marks. *)
Definition mark_budget (rsp stackBegin : Z) (traceInfo : gmap Z ObjectHeader) : nat :=
  S (length (getRoots rsp stackBegin traceInfo)
     + sum_list_with
         (fun entry : Z * ObjectHeader =>
            S (length (scan traceInfo entry.1 (size entry.2))))
         (map_to_list traceInfo)).

End Collector.

(** No header is marked: the state of [traceInfo] outside of [gc]. *)
Definition unmarked (traceInfo : gmap Z ObjectHeader) : Prop :=
  map_Forall (fun _ header => marked header = false) traceInfo.

Definition is_marked (traceInfo : gmap Z ObjectHeader) (k : Z) : Prop :=
  marked <$> traceInfo !! k = Some true.

(** [traceInfo] has the keys and the sizes of [traceInfo0]. *)
Definition same_objects (traceInfo0 traceInfo : gmap Z ObjectHeader) : Prop :=
  forall k, size <$> traceInfo !! k = size <$> traceInfo0 !! k.

(** What [sweep] does with the header of one key. *)
Definition swept (header : ObjectHeader) : option ObjectHeader :=
  if marked header then Some (mkHeader false (size header)) else None.

(** The graph of [createGraph] after [A->right = nullptr], with the eight
    nodes of 32 bytes at the addresses 1000 (H) to 1700 (A): the words
    at the offsets 16 and 24 of a node are its [left] and [right]. *)
Definition graph_words : gmap Z Z :=
  list_to_map
    [(1100 + 24, 1000);
     (1300 + 16, 1200); (1300 + 24, 1100);
     (1500 + 16, 1400); (1500 + 24, 1300);
     (1700 + 16, 1600);
     (5008, 1700)].

Definition graph_read (address : Z) : Z := default 0 (graph_words !! address).

Definition graph_traceInfo : gmap Z ObjectHeader :=
  foldr (fun object => operator_new object 32) ∅
        [1700; 1600; 1500; 1400; 1300; 1200; 1100; 1000].

(** The headers of the graph once [mark] has run: A and B are marked. *)
Definition graph_marked : gmap Z ObjectHeader :=
  <[1700 := mkHeader true 32]> (<[1600 := mkHeader true 32]> graph_traceInfo).

(** The nodes A and B, which the collection of the graph leaves. *)
Definition graph_survivors : gmap Z ObjectHeader :=
  foldr (fun object => operator_new object 32) ∅ [1700; 1600].

End MarkSweep.
(** * Properties *)

(** ** Reasoning about computations that finish *)

Section Inversion.

Context {A B : Type}.

Lemma bind_Done (c : M A) (k : A -> M B) s r s' :
  bind c k s = Done r s' ->
  exists a s1, c s = Done a s1 /\ k a s1 = Done r s'.
Proof.
  unfold bind. destruct (c s) as [a s1| |]; [|discriminate..].
  intros H. exists a, s1. split; [reflexivity|exact H].
Qed.

Lemma bind_Done_intro (c : M A) (k : A -> M B) s a s1 :
  c s = Done a s1 -> bind c k s = k a s1.
Proof. unfold bind. intros ->. reflexivity. Qed.

Lemma ret_Done (a r : A) s s' : ret a s = Done r s' -> r = a /\ s' = s.
Proof. unfold ret. intros H. injection H as <- <-. split; reflexivity. Qed.

Lemma get_Done (field : State -> A) s r s' :
  get field s = Done r s' -> r = field s /\ s' = s.
Proof. unfold get. intros H. injection H as <- <-. split; reflexivity. Qed.

End Inversion.

Lemma modify_Done f s r s' : modify f s = Done r s' -> s' = f s.
Proof. unfold modify. intros H. injection H as _ <-. reflexivity. Qed.

Lemma load_Done p s b s' :
  load p s = Done b s' -> s' = s /\ p <> nullptr /\ memory s !! p = Some b.
Proof.
  unfold load. destruct (decide (p = nullptr)); [discriminate|].
  destruct (memory s !! p) as [b0|]; [|discriminate].
  intros H. injection H as <- <-. repeat split; assumption.
Qed.

Lemma load_Some p s b :
  p <> nullptr -> memory s !! p = Some b -> load p s = Done b s.
Proof.
  intros Hp Hb. unfold load. destruct (decide (p = nullptr)); [contradiction|].
  rewrite Hb. reflexivity.
Qed.

Lemma store_Done p f s r s' :
  store p f s = Done r s' -> p <> nullptr /\ s' = stored p f s.
Proof.
  unfold store. destruct (decide (p = nullptr)); [discriminate|].
  intros H. injection H as _ <-. split; [assumption|reflexivity].
Qed.

Lemma store_nonnull p f s :
  p <> nullptr -> store p f s = Done tt (stored p f s).
Proof.
  intros Hp. unfold store. destruct (decide (p = nullptr)); [contradiction|reflexivity].
Qed.

Lemma stored_lookup_eq p f s :
  memory (stored p f s) !! p = Some (f (default Block.zeroed (memory s !! p))).
Proof. unfold stored. simpl. apply lookup_insert_eq. Qed.

Lemma stored_lookup_ne p q f s :
  p <> q -> memory (stored p f s) !! q = memory s !! q.
Proof. intros Hne. unfold stored. simpl. apply lookup_insert_ne. exact Hne. Qed.

Lemma array_get_Done table i s v s' :
  array_get table i s = Done v s' ->
  s' = s /\ 0 <= i /\ table s !! Z.to_nat i = Some v.
Proof.
  unfold array_get. destruct (decide (0 <= i)); [|discriminate].
  destruct (table s !! Z.to_nat i) as [v0|] eqn:E; [|discriminate].
  intros H. injection H as <- <-. repeat split; assumption.
Qed.

Lemma array_set_Done table with_table i v s r s' :
  array_set table with_table i v s = Done r s' ->
  s' = with_table (<[Z.to_nat i := v]> (table s)) s.
Proof.
  unfold array_set. destruct (decide (0 <= i)); [|discriminate].
  destruct (table s !! Z.to_nat i); [|discriminate].
  intros H. injection H as _ <-. reflexivity.
Qed.

Lemma sbrk_Done increment s r s' :
  sbrk increment s = Done r s' ->
  (r = program_break s /\
   s' = with_program_break (program_break s + increment) s) \/
  (r = -1 /\ 0 < increment /\ break_limit s < program_break s + increment /\ s' = s).
Proof.
  unfold sbrk.
  destruct (decide (increment <= 0 \/ program_break s + increment <= break_limit s)).
  - intros H. injection H as <- <-. left. split; reflexivity.
  - intros H. injection H as <- <-. right. repeat split; lia.
Qed.

(** One step of inversion on a hypothesis saying that a computation
    finished. *)
Ltac finished_step :=
  match goal with
  | H : bind _ _ _ = Done _ _ |- _ =>
      let a := fresh "v" in
      let s := fresh "s" in
      let H1 := fresh "Hrun" in
      apply bind_Done in H; destruct H as (a & s & H1 & H)
  | H : ret _ _ = Done _ _ |- _ =>
      apply ret_Done in H; destruct H as [? ?]; subst
  | H : get _ _ = Done _ _ |- _ =>
      apply get_Done in H; destruct H as [? ?]; subst
  | H : modify _ _ = Done _ _ |- _ =>
      apply modify_Done in H; subst
  | H : load _ _ = Done _ _ |- _ =>
      let Hn := fresh "Hnonnull" in
      let Hm := fresh "Hheader" in
      apply load_Done in H; destruct H as (? & Hn & Hm); subst
  | H : store _ _ _ = Done _ _ |- _ =>
      let Hn := fresh "Hnonnull" in
      apply store_Done in H; destruct H as (Hn & ?); subst
  | H : array_get _ _ _ = Done _ _ |- _ =>
      let Hi := fresh "Hindex" in
      let Hv := fresh "Hentry" in
      apply array_get_Done in H; destruct H as (? & Hi & Hv); subst
  | H : array_set _ _ _ _ _ = Done _ _ |- _ =>
      apply array_set_Done in H; subst
  | H : undefined _ _ = Done _ _ |- _ => discriminate H
  | H : out_of_fuel _ = Done _ _ |- _ => discriminate H
  | H : (if ?c then _ else _) _ = Done _ _ |- _ => destruct c
  end.

Ltac finished := repeat finished_step.

(** ** The header a block carries after a step *)


Lemma carries_after_stores s p size used f g :
  (forall b, Block.size (g (f b)) = size /\ Block.used (g (f b)) = used) ->
  carries (stored p g (stored p f s)) p size used.
Proof.
  intros Hfg. unfold carries. rewrite !stored_lookup_eq. simpl.
  eexists. split; [reflexivity|]. apply Hfg.
Qed.

(** ** [split] and [listAllocate] *)

Lemma same_cursors_refl s : same_cursors s s.
Proof. repeat split. Qed.

Lemma same_cursors_trans s1 s2 s3 :
  same_cursors s1 s2 -> same_cursors s2 s3 -> same_cursors s1 s3.
Proof. unfold same_cursors. intros H1 H2. intuition congruence. Qed.

Lemma split_Done block size s r s' :
  split block size s = Done r s' -> r = block /\ same_cursors s s'.
Proof.
  unfold split. intros H. finished; split; try reflexivity; repeat split.
Qed.

Lemma listAllocate_Done block size s r s' :
  listAllocate block size s = Done r s' ->
  r = block /\ block <> nullptr /\ same_cursors s s' /\ carries s' block size true.
Proof.
  unfold listAllocate, canSplit. intros H.
  repeat (finished_step; try match goal with
    | H : split _ _ _ = Done _ _ |- _ => apply split_Done in H; destruct H as [-> ?]
    end).
  all: repeat split; try assumption; try reflexivity.
  all: try match goal with H : same_cursors _ _ |- _ => unfold same_cursors in H; simpl; intuition idtac end.
  all: try (apply carries_after_stores; intros b; split; reflexivity).
Qed.
(** ** Facts on [align] *)

Section AlignFacts.

Lemma wrap_range x : 0 <= wrap x < 2 ^ 64.
Proof. unfold wrap. apply Z.mod_pos_bound. lia. Qed.

Lemma wrap_small x : 0 <= x < 2 ^ 64 -> wrap x = x.
Proof. intros H. unfold wrap. apply Z.mod_small. exact H. Qed.

Lemma wrap_idemp x : wrap (wrap x) = wrap x.
Proof. apply wrap_small, wrap_range. Qed.

Lemma land_mask_low3 y :
  0 <= y < 2 ^ 64 -> Z.land y (wrap (Z.lnot (sizeof_word - 1))) = 8 * (y / 8).
Proof.
  intros Hy.
  replace (wrap (Z.lnot (sizeof_word - 1))) with (2 ^ 64 - 8) by reflexivity.
  replace (8 * (y / 8)) with (Z.shiftl (Z.shiftr y 3) 3).
  2:{ rewrite Z.shiftl_mul_pow2, Z.shiftr_div_pow2 by lia.
      change (2 ^ 3) with 8. lia. }
  apply Z.bits_inj'. intros n Hn.
  rewrite Z.land_spec.
  destruct (Z.ltb_spec n 3) as [Hlt|Hge].
  - rewrite Z.shiftl_spec_low by lia.
    replace (Z.testbit (2 ^ 64 - 8) n) with false; [apply andb_false_r|].
    assert (n = 0 \/ n = 1 \/ n = 2) as [->|[->| ->]] by lia; reflexivity.
  - rewrite Z.shiftl_spec by lia. rewrite Z.shiftr_spec by lia.
    replace (n - 3 + 3) with n by lia.
    destruct (Z.ltb_spec n 64) as [Hlt|Hge'].
    + replace (Z.testbit (2 ^ 64 - 8) n) with true; [apply andb_true_r|].
      replace (2 ^ 64 - 8) with (Z.shiftl (Z.ones 61) 3) by reflexivity.
      rewrite Z.shiftl_spec by lia.
      symmetry. apply Z.ones_spec_low. lia.
    + replace (Z.testbit y n) with false; [reflexivity|].
      symmetry. destruct (Z.eq_dec y 0) as [->|Hy0]; [apply Z.bits_0|].
      apply Z.bits_above_log2; [lia|].
      apply Z.lt_le_trans with 64; [|lia].
      apply Z.log2_lt_pow2; lia.
Qed.

Lemma align_unfold x : align x = 8 * (wrap (x + 7) / 8).
Proof.
  unfold align. replace (x + sizeof_word - 1) with (x + 7) by (unfold sizeof_word; lia).
  apply land_mask_low3, wrap_range.
Qed.

Lemma align_in_range x : 0 <= x <= 2 ^ 64 - 8 -> align x = 8 * ((x + 7) / 8).
Proof.
  intros Hx. rewrite align_unfold, wrap_small by lia. reflexivity.
Qed.

Lemma align_multiple x : align x mod 8 = 0.
Proof.
  rewrite align_unfold. rewrite Z.mul_comm. apply Z.mod_mul. lia.
Qed.

Lemma align_bounds x : 0 <= align x <= 2 ^ 64 - 8.
Proof.
  rewrite align_unfold. pose proof (wrap_range (x + 7)) as Hw.
  pose proof (Z.div_mod (wrap (x + 7)) 8 ltac:(lia)) as Hd.
  pose proof (Z.mod_pos_bound (wrap (x + 7)) 8 ltac:(lia)) as Hm.
  lia.
Qed.

Lemma align_fixes_multiples m :
  0 <= m <= 2 ^ 64 - 8 -> m mod 8 = 0 -> align m = m.
Proof.
  intros Hm Hmod. rewrite align_in_range by lia.
  pose proof (Z.div_mod m 8 ltac:(lia)) as Hd.
  replace ((m + 7) / 8) with (m / 8); [lia|].
  apply Z.div_unique with (r := 7); lia.
Qed.

Lemma align_idempotent x : align (align x) = align x.
Proof. apply align_fixes_multiples; [apply align_bounds|apply align_multiple]. Qed.

End AlignFacts.

(** C9, as amended. On every [x] that leaves room for the rounding,
    [x <= size_max - 7], [align x] is at least [x], is a multiple of the
    word size and is the least such multiple; [align] does not decrease on
    such arguments; on every [x] it is idempotent, and [align 0 = 0]. *)
Theorem align_rounds_up (x : Z) (Hx : 0 <= x <= size_max - 7) :
  x <= align x /\
  align x mod sizeof_word = 0 /\
  (forall m, x <= m -> m mod sizeof_word = 0 -> align x <= m) /\
  (forall y, x <= y <= size_max - 7 -> align x <= align y) /\
  (forall y, align (align y) = align y) /\
  align 0 = 0.
Proof.
  unfold size_max, sizeof_word in *.
  assert (Hup : forall z, 0 <= z <= 2 ^ 64 - 8 ->
                 z <= align z /\ align z < z + 8 /\ align z mod 8 = 0).
  { intros z Hz. split; [|split; [|apply align_multiple]].
    - rewrite align_in_range by lia.
      pose proof (Z.div_mod (z + 7) 8 ltac:(lia)) as Hd.
      pose proof (Z.mod_pos_bound (z + 7) 8 ltac:(lia)) as Hm. lia.
    - rewrite align_in_range by lia.
      pose proof (Z.div_mod (z + 7) 8 ltac:(lia)) as Hd.
      pose proof (Z.mod_pos_bound (z + 7) 8 ltac:(lia)) as Hm. lia. }
  destruct (Hup x ltac:(lia)) as (Hle & Hlt & Hmul).
  split; [exact Hle|]. split; [exact Hmul|].
  split; [|split; [|split; [exact align_idempotent|reflexivity]]].
  - intros m Hxm Hm.
    pose proof (Z.div_mod m 8 ltac:(lia)) as Hdm.
    pose proof (Z.div_mod (align x) 8 ltac:(lia)) as Hda.
    rewrite Hm in Hdm. rewrite Hmul in Hda. lia.
  - intros y Hy. rewrite !align_in_range by lia.
    apply Z.mul_le_mono_nonneg_l; [lia|].
    apply Z.div_le_mono; lia.
Qed.

Lemma align_rounds_up_witness :
  13 <= align 13 /\ align 13 mod sizeof_word = 0.
Proof.
  pose proof (align_rounds_up 13 ltac:(unfold size_max; lia)) as (H1 & H2 & _).
  split; assumption.
Defined.

(** C9 as stated fails for the seven largest values of [size_t]: the sum
    [x + 7] wraps around and the result falls below the argument. *)
Lemma align_wraps_near_size_max :
  0 <= size_max <= size_max /\ align size_max = 0 /\ ~ (size_max <= align size_max).
Proof. vm_compute. repeat split; congruence. Qed.

(** ** The bucket of a size *)

Lemma to_int_small x : 0 <= x < 2 ^ 31 -> to_int x = x.
Proof.
  intros Hx. unfold to_int. rewrite Z.mod_small by lia. lia.
Qed.

(** C1, as amended. [getBucket size] is [size / 8 - 1]: it sends the sizes
    8, 16, 24, 32, 40 to the indices 0 to 4 of the bucket table, so of the
    classes 8, 16, 32, 64, 128 it sends 32 to 3, and 64 and 128 to 7 and
    15, beyond the five entries of the table. *)
Theorem getBucket_is_linear (size : Z) (Hsize : 8 <= size < 2 ^ 34) :
  getBucket size = size / sizeof_word - 1 /\
  (0 <= getBucket size < Z.of_nat bucket_count <-> size < 48) /\
  map getBucket [8; 16; 24; 32; 40] = [0; 1; 2; 3; 4] /\
  map getBucket [8; 16; 32; 64; 128] = [0; 1; 3; 7; 15].
Proof.
  assert (Hb : getBucket size = size / sizeof_word - 1).
  { unfold getBucket, sizeof_word.
    assert (1 <= size / 8 < 2 ^ 31).
    { split; [apply Z.div_le_lower_bound; lia|apply Z.div_lt_upper_bound; lia]. }
    rewrite wrap_small by lia. apply to_int_small. lia. }
  split; [exact Hb|]. split; [|split; reflexivity].
  rewrite Hb. unfold sizeof_word, bucket_count. simpl Z.of_nat.
  pose proof (Z.div_mod size 8 ltac:(lia)) as Hd.
  pose proof (Z.mod_pos_bound size 8 ltac:(lia)) as Hm. lia.
Qed.

Lemma getBucket_is_linear_witness :
  getBucket 32 = 32 / sizeof_word - 1.
Proof. exact (proj1 (getBucket_is_linear 32 ltac:(lia))). Defined.

(** C1 as stated fails: the five classes do not go to the indices 0 to 4. *)
Lemma getBucket_classes_not_consecutive :
  map getBucket [8; 16; 32; 64; 128] <> [0; 1; 2; 3; 4].
Proof. vm_compute. congruence. Qed.

(** A request of 64 bytes in segregated mode reads [segregatedLists[7]]. *)
Lemma segregated_alloc_64_leaves_table fuel :
  (init SegregatedList ;; alloc fuel 64) (initial_state 4096 65536)
  = Undefined (IndexOutOfBounds 7).
Proof. reflexivity. Qed.

(** ** Exhaustion of the backing store *)

Lemma requestFromOS_refused size s :
  0 < to_intptr (allocSize size) ->
  break_limit s < program_break s + to_intptr (allocSize size) ->
  requestFromOS size s
  = Done nullptr (with_program_break (program_break s + 0) s).
Proof.
  intros Hpos Hfull. unfold requestFromOS, bind, sbrk.
  destruct (decide (0 <= 0 \/ program_break s + 0 <= break_limit s)) as [_|n];
    [|exfalso; apply n; left; lia].
  simpl.
  destruct (decide (to_intptr (allocSize size) <= 0
                    \/ program_break s + 0 + to_intptr (allocSize size) <= break_limit s));
    [lia|].
  destruct (decide (-1 = -1)); [|contradiction].
  reflexivity.
Qed.

(** When no block is found and the operating system refuses to move the
    break, [alloc] writes through the null pointer [requestFromOS]
    returned. *)
Lemma alloc_refused_dereferences_null fuel size s s1 :
  findBlock fuel (align size) s = Done nullptr s1 ->
  0 < to_intptr (allocSize (align size)) ->
  break_limit s1 < program_break s1 + to_intptr (allocSize (align size)) ->
  alloc fuel size s = Undefined NullDereference.
Proof.
  intros Hfind Hpos Hfull. unfold alloc.
  rewrite (bind_Done_intro _ _ _ _ _ Hfind).
  destruct (decide (nullptr <> nullptr)); [contradiction|].
  rewrite (bind_Done_intro _ _ _ _ _ (requestFromOS_refused _ _ Hpos Hfull)).
  reflexivity.
Qed.

(** C2 on the code: with four bytes left below the limit of the break,
    the first [alloc(8)] of a session does not return a failure, it
    dereferences the null pointer. *)
Theorem alloc_out_of_memory_is_undefined :
  (exists s', requestFromOS 8 (initial_state 4096 4100) = Done nullptr s') /\
  forall fuel,
    (init FirstFit ;; alloc (S fuel) 8) (initial_state 4096 4100)
    = Undefined NullDereference.
Proof.
  split; [eexists; reflexivity|]. intros fuel. reflexivity.
Qed.

(** ** The free list after a split *)

(** In explicit-free-list mode a split leaves the block it returns, which
    [listAllocate] marks used, at the back of the free list. *)
Lemma listAllocate_split_keeps_prefix_listed block size s b r s' :
  searchMode s = FreeList ->
  memory s !! block = Some b ->
  canSplit_sizes (Block.size b) size = true ->
  listAllocate block size s = Done r s' ->
  r = block /\ free_list s' = push_back block (free_list s) /\
  carries s' block size true.
Proof.
  intros Hmode Hb Hcan H.
  pose proof (listAllocate_Done _ _ _ _ _ H) as (-> & _ & _ & Hcar).
  split; [reflexivity|]. split; [|exact Hcar].
  unfold listAllocate, canSplit, split in H.
  apply bind_Done in H. destruct H as (mode & s0 & Hget & H).
  apply get_Done in Hget. destruct Hget as [-> ->].
  destruct (decide (searchMode s <> SegregatedList)) as [_|Hseg];
    [|exfalso; apply Hseg; rewrite Hmode; discriminate].
  apply bind_Done in H. destruct H as (can & s0 & Hrun & H).
  apply bind_Done in Hrun. destruct Hrun as (b0 & s1 & Hload & Hret).
  apply load_Done in Hload. destruct Hload as (-> & _ & Hb0).
  apply ret_Done in Hret. destruct Hret as [-> ->].
  rewrite Hb in Hb0. injection Hb0 as <-. rewrite Hcan in H.
  finished; simpl in *; congruence.
Qed.

(** C3 on the code: after the split of the freed block of 64 bytes the
    free list holds the allocated prefix, marked used, and not the free
    remainder that [split] created behind it. *)
Theorem split_registers_the_allocated_prefix :
  exists s',
    free_list_session 1 (initial_state 4096 65536) = Done (data_of 4096) s' /\
    4128 = 4096 + allocSize 8 /\
    memory s' !! 4096 = Some (Block.mk 8 true 4128) /\
    memory s' !! 4128 = Some (Block.mk 32 false nullptr) /\
    free_list s' = [4096] /\
    4128 ∉ free_list s'.
Proof.
  eexists. split; [vm_compute; reflexivity|].
  repeat (split; [vm_compute; reflexivity|]).
  simpl. intros H. apply list_elem_of_In in H. simpl in H. intuition congruence.
Qed.

(** ** The guard of the split *)

(** [canSplit] accepts every block that exceeds the request by 8 bytes
    or more; when it exceeds it by less than the 24 bytes of a header, the
    size [split] computes for the remainder has wrapped around. *)
Lemma canSplit_accepts_short_leftover block_size size :
  0 <= size -> size + 8 <= block_size -> block_size < size + 24 ->
  block_size < 2 ^ 31 - 24 ->
  canSplit_sizes block_size size = true /\
  bytes_left block_size size < bare_header /\
  split_remainder block_size size = 2 ^ 64 - (size + 24 - block_size).
Proof.
  intros H0 Hlow Hhigh Hsmall.
  assert (Ha : forall z, 0 <= z < 2 ^ 31 -> allocSize z = z + 24).
  { intros z Hz. unfold allocSize, sizeof_Block, sizeof_data.
    rewrite wrap_small by lia. lia. }
  split; [|split].
  - unfold canSplit_sizes. apply bool_decide_eq_true_2.
    rewrite Ha by lia. rewrite wrap_small by lia.
    rewrite !to_int_small by (unfold sizeof_Block; lia). unfold sizeof_Block. lia.
  - unfold bytes_left, bare_header. rewrite !Ha by lia. lia.
  - unfold split_remainder. rewrite Ha by lia. unfold wrap.
    symmetry. apply Z.mod_unique with (q := -1); lia.
Qed.

(** C4 on the code: for a free block of 16 bytes and a request of 8,
    [canSplit] holds although the 8 bytes left cannot host a header, and
    [split] records the size [16 - 32], wrapped around, in the remainder. *)
Theorem canSplit_accepts_tight_block :
  canSplit_sizes 16 8 = true /\
  bytes_left 16 8 = 8 /\ bare_header = 24 /\
  split_remainder 16 8 = 2 ^ 64 - 16 /\
  exists s',
    tight_split_session 2 (initial_state 4096 65536) = Done (data_of 4096) s' /\
    memory s' !! 4096 = Some (Block.mk 8 true 4128) /\
    memory s' !! 4128 = Some (Block.mk (2 ^ 64 - 16) false nullptr).
Proof.
  repeat (split; [reflexivity|]).
  eexists. split; [vm_compute; reflexivity|].
  split; vm_compute; reflexivity.
Qed.

(** ** The scan of best-fit *)

Lemma bestFit_loop_step fuel size block best s b :
  block <> nullptr ->
  memory s !! block = Some b ->
  bestFit_loop (S fuel) size block best s =
  if Block.used b || bool_decide (Block.size b < size)
  then bestFit_loop fuel size (Block.next b) best s
  else
    bind (if decide (best = nullptr) then ret true
          else bb <- load best ;; ret (bool_decide (Block.size b < Block.size bb)))
         (fun smaller : bool =>
            if smaller then bestFit_loop fuel size (Block.next b) block
            else bestFit_loop fuel size block best) s.
Proof.
  intros Hn Hb. simpl. destruct (decide (block = nullptr)); [contradiction|].
  rewrite (bind_Done_intro _ _ _ _ _ (load_Some _ _ _ Hn Hb)).
  destruct (Block.used b || bool_decide (Block.size b < size)); reflexivity.
Qed.

(** Once the scan stands on a free block that fits and is not smaller than
    the best block so far, it stays there: the loop variable is not
    advanced on that path. *)
Lemma bestFit_loop_stays fuel size block best s b bb :
  block <> nullptr -> best <> nullptr ->
  memory s !! block = Some b -> memory s !! best = Some bb ->
  Block.used b = false -> size <= Block.size b -> Block.size bb <= Block.size b ->
  bestFit_loop fuel size block best s = OutOfFuel.
Proof.
  intros Hblock Hbest Hb Hbb Hfree Hfits Hnot_smaller.
  induction fuel as [|fuel IH]; [reflexivity|].
  rewrite (bestFit_loop_step _ _ _ _ _ _ Hblock Hb).
  rewrite Hfree. simpl orb.
  rewrite bool_decide_eq_false_2 by lia.
  destruct (decide (best = nullptr)); [contradiction|].
  unfold bind at 1 2. rewrite (load_Some _ _ _ Hbest Hbb).
  unfold ret. rewrite bool_decide_eq_false_2 by lia.
  exact IH.
Qed.

Lemma two_equal_free_blocks_reached :
  two_equal_free_blocks_session 4 (initial_state 4096 65536)
  = Done tt two_equal_free_blocks.
Proof. vm_compute. reflexivity. Qed.

(** C5 on the code: on a chain with two free blocks of 16 bytes, the scan
    of best-fit for 16 bytes does not complete, whatever the fuel, and
    neither does [alloc(16)]. *)
Theorem bestFit_never_leaves_equal_block :
  two_equal_free_blocks_session 4 (initial_state 4096 65536)
  = Done tt two_equal_free_blocks /\
  forall fuel,
    bestFit fuel 16 two_equal_free_blocks = OutOfFuel /\
    alloc fuel 16 two_equal_free_blocks = OutOfFuel.
Proof.
  split; [exact two_equal_free_blocks_reached|].
  assert (H1 : memory two_equal_free_blocks !! 4096 = Some (Block.mk 16 false 4136))
    by (vm_compute; reflexivity).
  assert (H2 : memory two_equal_free_blocks !! 4136 = Some (Block.mk 8 true 4168))
    by (vm_compute; reflexivity).
  assert (H3 : memory two_equal_free_blocks !! 4168 = Some (Block.mk 16 false nullptr))
    by (vm_compute; reflexivity).
  assert (Hloop : forall fuel,
             bestFit_loop fuel 16 4096 nullptr two_equal_free_blocks = OutOfFuel).
  { assert (N1 : 4096 <> nullptr) by (unfold nullptr; lia).
    assert (N2 : 4136 <> nullptr) by (unfold nullptr; lia).
    assert (N3 : 4168 <> nullptr) by (unfold nullptr; lia).
    intros [|[|fuel]]; [reflexivity| |].
    - rewrite (bestFit_loop_step _ _ _ _ _ _ N1 H1). reflexivity.
    - rewrite (bestFit_loop_step _ _ _ _ _ _ N1 H1).
      change (bestFit_loop (S fuel) 16 4136 4096 two_equal_free_blocks = OutOfFuel).
      rewrite (bestFit_loop_step _ _ _ _ _ _ N2 H2).
      change (bestFit_loop fuel 16 4168 4096 two_equal_free_blocks = OutOfFuel).
      apply (bestFit_loop_stays _ _ _ _ _ _ _ N3 N1 H3 H1); simpl; [reflexivity|lia|lia]. }
  assert (Hbest : forall fuel, bestFit fuel 16 two_equal_free_blocks = OutOfFuel).
  { intros fuel. unfold bestFit, bind, get.
    change (heapStart two_equal_free_blocks) with 4096.
    rewrite Hloop. reflexivity. }
  intros fuel. split; [apply Hbest|].
  assert (Hfind : findBlock fuel 16 two_equal_free_blocks = OutOfFuel)
    by exact (Hbest fuel).
  unfold alloc. change (align 16) with 16. unfold bind at 1.
  rewrite Hfind. reflexivity.
Qed.

(** ** What a placement strategy leaves behind *)

Lemma carries_same_memory s s' p size used :
  memory s' = memory s -> carries s p size used -> carries s' p size used.
Proof. unfold carries. intros ->. exact (fun H => H). Qed.

Lemma scan_post_find_post size s r s' : scan_post size s r s' -> find_post size s r s'.
Proof.
  intros (Hsame & Hrest). split; [|exact Hrest].
  unfold same_cursors in *. simpl. intuition congruence.
Qed.

Lemma scan_post_miss size s : scan_post size s nullptr s.
Proof.
  split; [repeat split|]. split; [intros H; contradiction|]. intros _; split; reflexivity.
Qed.

Lemma scan_post_listAllocate size s block r s' :
  listAllocate block size s = Done r s' -> scan_post size s r s'.
Proof.
  intros H. apply listAllocate_Done in H. destruct H as (-> & Hn & Hc & Hcar).
  split; [exact Hc|]. split; [intros _; exact Hcar|intros; contradiction].
Qed.

Lemma firstFit_loop_Done fuel size block s r s' :
  firstFit_loop fuel size block s = Done r s' -> scan_post size s r s'.
Proof.
  revert block. induction fuel as [|fuel IH]; intros block H; [discriminate|].
  simpl in H. finished.
  - apply scan_post_miss.
  - eapply IH. exact H.
  - eapply scan_post_listAllocate. exact H.
Qed.

Lemma firstFit_Done fuel size s r s' :
  firstFit fuel size s = Done r s' -> scan_post size s r s'.
Proof. unfold firstFit. intros H. finished. eapply firstFit_loop_Done. exact H. Qed.

(** The scan of next-fit: a miss changes nothing, a hit moves the cursor to
    the block that is returned. *)
Lemma nextFit_loop_Done fuel size start block s r s' :
  nextFit_loop fuel size start block s = Done r s' ->
  (r = nullptr /\ s' = s) \/
  (r <> nullptr /\ searchStart s' = r /\ find_post size s r s').
Proof.
  revert block. induction fuel as [|fuel IH]; intros block H; [discriminate|].
  simpl in H. finished.
  1-5: first [left; split; reflexivity | eapply IH; exact H].
  apply listAllocate_Done in H. destruct H as (-> & Hn & Hc & Hcar).
  right. split; [exact Hn|]. unfold same_cursors in Hc. simpl in Hc.
  split; [intuition congruence|].
  split; [|split; [intros _; exact Hcar|intros; contradiction]].
  unfold same_cursors. simpl. intuition congruence.
Qed.

Lemma nextFit_Done fuel size s r s' :
  nextFit fuel size s = Done r s' ->
  let cursor := if decide (searchStart s = nullptr) then heapStart s else searchStart s in
  (r = nullptr /\ s' = with_searchStart cursor s) \/
  (r <> nullptr /\ searchStart s' = r /\ find_post size s r s').
Proof.
  unfold nextFit. intros H. simpl.
  assert (Hs : forall t, with_searchStart (searchStart t) t = t) by (intros []; reflexivity).
  finished; apply nextFit_loop_Done in H; destruct H as [[-> ->]|(Hn & Hc & Hp)].
  - left. split; reflexivity.
  - right. split; [exact Hn|]. split; [exact Hc|].
    destruct Hp as (Hsame & Hcar & Hmiss). split; [|split]; [|exact Hcar|intro; contradiction].
    unfold same_cursors in *. simpl in *. intuition congruence.
  - left. split; [reflexivity|]. symmetry. apply Hs.
  - right. split; [exact Hn|]. split; [exact Hc|]. exact Hp.
Qed.

Lemma bestFit_loop_Done fuel size block best s r s' :
  bestFit_loop fuel size block best s = Done r s' -> s' = s.
Proof.
  revert block best. induction fuel as [|fuel IH]; intros block best H; [discriminate|].
  simpl in H. finished; first [reflexivity | eapply IH; exact H].
Qed.

Lemma bestFit_Done fuel size s r s' :
  bestFit fuel size s = Done r s' -> scan_post size s r s'.
Proof.
  unfold bestFit. intros H. finished.
  all: match goal with H : bestFit_loop _ _ _ _ _ = _ |- _ =>
         apply bestFit_loop_Done in H; subst end.
  - apply scan_post_miss.
  - eapply scan_post_listAllocate. exact H.
Qed.

Lemma freeList_scan_Done l size s r s' :
  freeList_scan l size s = Done r s' -> s' = s.
Proof.
  induction l as [|block rest IH]; simpl; intros H; finished;
    first [reflexivity | apply IH; exact H].
Qed.

Lemma freeList_Done size s r s' :
  freeList size s = Done r s' -> scan_post size s r s'.
Proof.
  unfold freeList. intros H. finished.
  all: match goal with H : freeList_scan _ _ _ = _ |- _ =>
         apply freeList_scan_Done in H; subst end.
  2: apply scan_post_miss.
  apply listAllocate_Done in H. destruct H as (-> & Hn & Hsame & Hcar).
  split; [|split]; [|intros _; exact Hcar|intros; contradiction].
  unfold same_cursors in *. simpl in *. intuition congruence.
Qed.

Lemma segregatedFit_Done fuel size s r s' :
  segregatedFit fuel size s = Done r s' -> scan_post size s r s'.
Proof.
  unfold segregatedFit. intros H. finished.
  match goal with H : firstFit _ _ _ = _ |- _ =>
    apply firstFit_Done in H; destruct H as (Hsame & Hcar & Hmiss) end.
  split; [|split].
  - unfold same_cursors in *. simpl in *. intuition congruence.
  - intros Hn. eapply carries_same_memory; [|exact (Hcar Hn)]. reflexivity.
  - intros Hn. destruct (Hmiss Hn) as [Hm Hf]. simpl in *. split; assumption.
Qed.

Lemma findBlock_Done fuel size s r s' :
  findBlock fuel size s = Done r s' -> find_post size s r s'.
Proof.
  unfold findBlock. intros H. finished. destruct (searchMode s).
  - eapply scan_post_find_post, firstFit_Done. exact H.
  - apply nextFit_Done in H. simpl in H. destruct H as [[-> ->]|(Hn & Hc & Hp)]; [|exact Hp].
    split; [repeat split|]. split; [intro; contradiction|]. intros _. split; reflexivity.
  - eapply scan_post_find_post, bestFit_Done. exact H.
  - eapply scan_post_find_post, freeList_Done. exact H.
  - eapply scan_post_find_post, segregatedFit_Done. exact H.
Qed.

(** ** The backing store *)

Lemma requestFromOS_Done size s r s' :
  requestFromOS size s = Done r s' ->
  memory s' = memory s /\ free_list s' = free_list s /\
  same_cursors (with_program_break (program_break s') s) s' /\
  (r = nullptr \/
   (r = program_break s /\
    program_break s' = program_break s + to_intptr (allocSize size))).
Proof.
  unfold requestFromOS. intros H.
  apply bind_Done in H. destruct H as (block & s0 & H0 & H).
  apply bind_Done in H. destruct H as (moved & s1 & H1 & H).
  apply sbrk_Done in H0. apply sbrk_Done in H1.
  destruct H0 as [(-> & ->)|(_ & ? & _)]; [|lia].
  destruct H1 as [(-> & ->)|(-> & _ & _ & ->)].
  all: finished; repeat split; simpl; try (left; reflexivity); try (right; split; lia).
Qed.

(** ** The header behind the handle [alloc] returns *)

Lemma getHeader_data_of block : getHeader (data_of block) = block.
Proof. unfold getHeader, data_of. lia. Qed.




(** ** The cursor of next-fit *)

(** C8. In next-fit mode, when [alloc] returns, the search either found a
    block, and then the cursor is the block that was allocated and the
    break did not move, or it completed its scan without a hit, and then
    the cursor is the one the search started from and the block that is
    returned is the one grown at the old program break. *)
Theorem nextFit_cursor_follows_allocation fuel size s h s' :
  searchMode s = NextFit ->
  alloc fuel size s = Done h s' ->
  exists r s1,
    nextFit fuel (align size) s = Done r s1 /\
    ((r <> nullptr /\ searchStart s1 = r /\
      h = data_of r /\ searchStart s' = r /\ program_break s' = program_break s) \/
     (r = nullptr /\ searchStart s1 = cursor_of s /\ memory s1 = memory s /\
      searchStart s' = cursor_of s /\
      h = data_of (program_break s) /\
      program_break s' = program_break s + to_intptr (allocSize (align size)))).
Proof.
  intros Hmode H. unfold alloc in H.
  apply bind_Done in H. destruct H as (r & s1 & Hfind & H).
  assert (Hnext : nextFit fuel (align size) s = Done r s1).
  { unfold findBlock in Hfind. apply bind_Done in Hfind.
    destruct Hfind as (mode & s0 & Hget & Hfind).
    apply get_Done in Hget. destruct Hget as [-> ->].
    rewrite Hmode in Hfind. exact Hfind. }
  exists r, s1. split; [exact Hnext|].
  apply nextFit_Done in Hnext. fold (cursor_of s) in Hnext.
  destruct Hnext as [[-> ->]|(Hn & Hc & Hp)].
  - right. destruct (decide (nullptr <> nullptr)); [contradiction|].
    apply bind_Done in H. destruct H as (block & s2 & Hos & H).
    apply requestFromOS_Done in Hos.
    destruct Hos as (_ & _ & Hsame & [->|[-> Hbreak]]); [finished; contradiction|].
    unfold same_cursors in Hsame. simpl in Hsame, Hbreak.
    destruct Hsame as (? & ? & Hm & Hs & _).
    finished; simpl in *; try congruence.
    all: repeat split; congruence.
  - left. destruct (decide (r <> nullptr)); [|contradiction].
    finished. destruct Hp as (Hsame & _). unfold same_cursors in Hsame. simpl in Hsame.
    repeat split; solve [assumption | reflexivity | intuition congruence].
Qed.

Lemma nextFit_cursor_follows_allocation_witness :
  let s := state_after (next_fit_session 8) fresh_process in
  exists r s1,
    nextFit 8 (align 16) s = Done r s1 /\
    ((r <> nullptr /\ searchStart s1 = r /\
      data_of 4192 = data_of r /\ searchStart (state_after (alloc 8 16) s) = r /\
      program_break (state_after (alloc 8 16) s) = program_break s) \/
     (r = nullptr /\ searchStart s1 = cursor_of s /\ memory s1 = memory s /\
      searchStart (state_after (alloc 8 16) s) = cursor_of s /\
      data_of 4192 = data_of (program_break s) /\
      program_break (state_after (alloc 8 16) s)
      = program_break s + to_intptr (allocSize (align 16)))).
Proof.
  intros s.
  apply (nextFit_cursor_follows_allocation 8 16 s (data_of 4192)
           (state_after (alloc 8 16) s)).
  - vm_compute. reflexivity.
  - vm_compute. reflexivity.
Defined.

(** ** The head of the main chain in segregated mode *)

Lemma coalesce_Done block s r s' :
  coalesce block s = Done r s' ->
  r = block /\ heapStart s' = heapStart s /\ searchMode s' = searchMode s /\
  free_list s' = free_list s.
Proof.
  unfold coalesce. intros H. finished; repeat split.
Qed.

Lemma free_Done_heapStart data s r s' :
  free data s = Done r s' -> heapStart s' = heapStart s.
Proof.
  unfold free, canCoalesce. intros H.
  repeat (finished_step; try match goal with
    | H : coalesce _ _ = Done _ _ |- _ =>
        apply coalesce_Done in H; destruct H as (-> & ? & ? & ?)
    end); simpl; congruence.
Qed.

Lemma segregatedTraverse_from_Done {A} fuel (callback : Z -> A -> M A) count bucket acc s r s' :
  segregatedTraverse_from fuel callback count bucket acc s = Done r s' ->
  heapStart s' = heapStart s.
Proof.
  revert bucket acc s. induction count as [|count IH]; intros bucket acc s H; simpl in H.
  - finished. reflexivity.
  - apply bind_Done in H. destruct H as (original & s0 & Hget & H).
    apply get_Done in Hget. destruct Hget as [-> ->].
    apply bind_Done in H. destruct H as (block & s1 & _ & H).
    apply bind_Done in H. destruct H as (? & s2 & _ & H).
    apply bind_Done in H. destruct H as (acc' & s3 & _ & H).
    apply bind_Done in H. destruct H as (? & s4 & Hrestore & H).
    apply modify_Done in Hrestore. subst s4.
    apply IH in H. rewrite H. reflexivity.
Qed.

Lemma alloc_segregated_heapStart fuel size s h s' :
  searchMode s = SegregatedList ->
  alloc fuel size s = Done h s' ->
  heapStart s' = heapStart s.
Proof.
  intros Hmode H. unfold alloc in H.
  apply bind_Done in H. destruct H as (r & s1 & Hfind & H).
  assert (Hseg : segregatedFit fuel (align size) s = Done r s1).
  { unfold findBlock in Hfind. apply bind_Done in Hfind.
    destruct Hfind as (mode & s0 & Hget & Hfind).
    apply get_Done in Hget. destruct Hget as [-> ->].
    rewrite Hmode in Hfind. exact Hfind. }
  apply segregatedFit_Done in Hseg. destruct Hseg as (Hsame & _).
  unfold same_cursors in Hsame. destruct Hsame as (Hhs & _ & Hm & _).
  destruct (decide (r <> nullptr)).
  - finished. exact Hhs.
  - apply bind_Done in H. destruct H as (block & s2 & Hos & H).
    apply requestFromOS_Done in Hos. destruct Hos as (_ & _ & Hsame & _).
    unfold same_cursors in Hsame. simpl in Hsame. destruct Hsame as (Hhs2 & _ & Hm2 & _).
    finished; simpl in *; congruence.
Qed.

(** C10. [segregatedFit] and [segregatedTraverse] point [heapStart] to a
    bucket while they run and, when they return, have put back the value it
    had before the call, whatever the callback does; so [alloc], [free] and
    [traverse] in segregated mode leave the head of the main chain as it
    was. *)
Theorem segregated_mode_keeps_heapStart (s s' : State) :
  (forall fuel size r, segregatedFit fuel size s = Done r s' -> heapStart s' = heapStart s) /\
  (forall A fuel (callback : Z -> A -> M A) acc r,
      segregatedTraverse fuel callback acc s = Done r s' -> heapStart s' = heapStart s) /\
  (searchMode s = SegregatedList ->
   (forall fuel size h, alloc fuel size s = Done h s' -> heapStart s' = heapStart s) /\
   (forall data u, free data s = Done u s' -> heapStart s' = heapStart s) /\
   (forall A fuel (callback : Z -> A -> M A) acc r,
       traverse fuel callback acc s = Done r s' -> heapStart s' = heapStart s)).
Proof.
  split; [|split].
  - intros fuel size r H. apply segregatedFit_Done in H. destruct H as (Hsame & _).
    apply Hsame.
  - intros A fuel callback acc r H. unfold segregatedTraverse in H.
    eapply segregatedTraverse_from_Done. exact H.
  - intros Hmode. split; [|split].
    + intros fuel size h H. eapply alloc_segregated_heapStart; eassumption.
    + intros data u H. eapply free_Done_heapStart. exact H.
    + intros A fuel callback acc r H. unfold traverse in H.
      apply bind_Done in H. destruct H as (mode & s0 & Hget & H).
      apply get_Done in Hget. destruct Hget as [-> ->].
      destruct (decide (searchMode s = SegregatedList)); [|contradiction].
      unfold segregatedTraverse in H.
      eapply segregatedTraverse_from_Done. exact H.
Qed.

Lemma segregated_mode_keeps_heapStart_witness :
  let s := state_after (segregated_session 4) fresh_process in
  searchMode s = SegregatedList /\
  heapStart (state_after (segregatedFit 4 8) s) = heapStart s /\
  heapStart (state_after (traverse 4 print_block []) s) = heapStart s /\
  heapStart (state_after (alloc 4 16) s) = heapStart s.
Proof.
  intros s.
  assert (Hmode : searchMode s = SegregatedList) by (vm_compute; reflexivity).
  split; [exact Hmode|]. split; [|split].
  - destruct (segregated_mode_keeps_heapStart s (state_after (segregatedFit 4 8) s))
      as (Hfit & _).
    apply (Hfit 4%nat 8 nullptr). vm_compute. reflexivity.
  - destruct (segregated_mode_keeps_heapStart s
                (state_after (traverse 4 print_block []) s)) as (_ & _ & Hops).
    destruct (Hops Hmode) as (_ & _ & Htraverse).
    apply (Htraverse _ 4%nat print_block []
             [(8, true); (8, true); (8, true); (16, true); (32, true)]).
    vm_compute. reflexivity.
  - destruct (segregated_mode_keeps_heapStart s (state_after (alloc 4 16) s))
      as (_ & _ & Hops).
    destruct (Hops Hmode) as (Halloc & _).
    apply (Halloc 4%nat 16 (data_of 4288)). vm_compute. reflexivity.
Defined.

(** ** Chains and the traversal *)

Section Chains.

Variable m : gmap Z Block.t.

Lemma chain_functional p l1 l2 : chain m p l1 -> chain m p l2 -> l1 = l2.
Proof.
  intros H1. revert l2. induction H1 as [|p b l Hp Hb Hl IH]; intros l2 H2.
  - inversion H2 as [|? ? ? Hp' ? ?]; [reflexivity|]. contradiction.
  - inversion H2 as [Hnull|p' b' l' Hp' Hb' Hl']; subst; [contradiction|].
    rewrite Hb in Hb'. injection Hb' as <-. f_equal. apply IH. exact Hl'.
Qed.

Lemma chain_nonnull p l x : chain m p l -> x ∈ l -> x <> nullptr.
Proof.
  induction 1 as [|p b l Hp Hb Hl IH]; intros Hx.
  - apply elem_of_nil in Hx. contradiction.
  - apply elem_of_cons in Hx. destruct Hx as [->|Hx]; [exact Hp|apply IH, Hx].
Qed.

Lemma chain_suffix p l x :
  chain m p l -> x ∈ l -> exists l1 l2, l = l1 ++ x :: l2 /\ chain m x (x :: l2).
Proof.
  induction 1 as [|p b l Hp Hb Hl IH]; intros Hx.
  - apply elem_of_nil in Hx. contradiction.
  - destruct (decide (x = p)) as [->|Hne].
    + exists [], l. split; [reflexivity|]. econstructor; eassumption.
    + apply elem_of_cons in Hx. destruct Hx as [->|Hx]; [contradiction|].
      destruct (IH Hx) as (l1 & l2 & -> & Hc).
      exists (p :: l1), l2. split; [reflexivity|exact Hc].
Qed.

Lemma chain_NoDup p l : chain m p l -> NoDup l.
Proof.
  induction 1 as [|p b l Hp Hb Hl IH]; [constructor|].
  apply NoDup_cons. split; [|exact IH].
  intros Hin. destruct (chain_suffix _ _ _ Hl Hin) as (l1 & l2 & El & Hc).
  assert (Hwhole : chain m p (p :: l)) by (econstructor; eassumption).
  pose proof (chain_functional _ _ _ Hwhole Hc) as E.
  injection E as E. rewrite E in El.
  apply (f_equal length) in El. rewrite length_app in El. simpl in El. lia.
Qed.




End Chains.

(** The traversal with the recording callback lists the chain. *)
Lemma visit_loop_record_Done fuel p acc s seen s' :
  visit_loop fuel record_block p acc s = Done seen s' ->
  s' = s /\ exists l, chain (memory s) p l /\ seen = acc ++ l /\ (length l < fuel)%nat.
Proof.
  revert p acc. induction fuel as [|fuel IH]; intros p acc H; [discriminate|].
  simpl in H. destruct (decide (p = nullptr)) as [->|Hp].
  - finished. split; [reflexivity|]. exists []. split; [constructor|].
    split; [rewrite app_nil_r; reflexivity|simpl; lia].
  - unfold record_block in H. finished.
    apply IH in H. destruct H as (-> & l & Hl & -> & Hlen).
    split; [reflexivity|]. exists (p :: l). split; [econstructor; eassumption|].
    split; [rewrite <- app_assoc; reflexivity|simpl; lia].
Qed.

Lemma visit_loop_record_chain fuel p acc s l :
  chain (memory s) p l -> (length l < fuel)%nat ->
  visit_loop fuel record_block p acc s = Done (acc ++ l) s.
Proof.
  intros Hl. revert fuel acc. induction Hl as [|p b l Hp Hb Hl IH]; intros fuel acc Hlen.
  - destruct fuel; [simpl in Hlen; lia|]. simpl.
    destruct (decide (nullptr = nullptr)); [|contradiction].
    rewrite app_nil_r. reflexivity.
  - destruct fuel; [simpl in Hlen; lia|]. simpl.
    destruct (decide (p = nullptr)); [contradiction|].
    unfold record_block at 1. unfold bind at 1. unfold ret at 1.
    rewrite (bind_Done_intro _ _ _ _ _ (load_Some _ _ _ Hp Hb)).
    rewrite IH by (simpl in Hlen; lia).
    rewrite <- app_assoc. reflexivity.
Qed.

(** ** The scans return on a well-formed chain *)

Lemma split_returns block size s b :
  0 < block -> memory s !! block = Some b ->
  exists s', split block size s = Done block s'.
Proof.
  intros Hpos Hb.
  assert (Hblock : block <> nullptr) by (unfold nullptr; lia).
  assert (Hpart : block + allocSize size <> nullptr).
  { pose proof (wrap_range (sizeof_Block + size - sizeof_data)).
    unfold allocSize, nullptr. lia. }
  unfold split.
  rewrite (bind_Done_intro _ _ _ _ _ (load_Some _ _ _ Hblock Hb)).
  rewrite (bind_Done_intro _ _ _ _ _ (store_nonnull _ _ _ Hpart)).
  rewrite (bind_Done_intro _ _ _ _ _ (store_nonnull _ _ _ Hpart)).
  cbv beta.
  match goal with |- context [bind (load block) _ ?t] =>
    destruct (memory t !! block) as [b1|] eqn:Hb1 end.
  2:{ exfalso. destruct (decide (block + allocSize size = block)) as [E|Hne].
      - rewrite E, stored_lookup_eq in Hb1. discriminate.
      - rewrite !stored_lookup_ne, Hb in Hb1 by exact Hne. discriminate. }
  rewrite (bind_Done_intro _ _ _ _ _ (load_Some _ _ _ Hblock Hb1)).
  rewrite (bind_Done_intro _ _ _ _ _ (store_nonnull _ _ _ Hpart)).
  rewrite (bind_Done_intro _ _ _ _ _ (store_nonnull _ _ _ Hblock)).
  rewrite (bind_Done_intro _ _ _ _ _ (store_nonnull _ _ _ Hblock)).
  unfold bind at 1. unfold get at 1.
  match goal with |- context [decide (?a = FreeList)] => destruct (decide (a = FreeList)) end;
    eexists; reflexivity.
Qed.

Lemma listAllocate_returns block size s b :
  0 < block -> memory s !! block = Some b ->
  exists s', listAllocate block size s = Done block s'.
Proof.
  intros Hpos Hb.
  assert (Hblock : block <> nullptr) by (unfold nullptr; lia).
  unfold listAllocate. unfold bind at 1. unfold get at 1.
  assert (Hcan : exists can,
             (if decide (searchMode s <> SegregatedList)
              then canSplit block size else ret false) s = Done can s).
  { destruct (decide (searchMode s <> SegregatedList)); [|eexists; reflexivity].
    unfold canSplit. rewrite (bind_Done_intro _ _ _ _ _ (load_Some _ _ _ Hblock Hb)).
    eexists. reflexivity. }
  destruct Hcan as (can & Hcan). rewrite (bind_Done_intro _ _ _ _ _ Hcan).
  destruct can.
  - destruct (split_returns block size s b Hpos Hb) as (s1 & Hsplit).
    rewrite (bind_Done_intro _ _ _ _ _ Hsplit).
    rewrite (bind_Done_intro _ _ _ _ _ (store_nonnull _ _ _ Hblock)).
    rewrite (bind_Done_intro _ _ _ _ _ (store_nonnull _ _ _ Hblock)).
    eexists. reflexivity.
  - unfold bind at 1. unfold ret at 1.
    rewrite (bind_Done_intro _ _ _ _ _ (store_nonnull _ _ _ Hblock)).
    rewrite (bind_Done_intro _ _ _ _ _ (store_nonnull _ _ _ Hblock)).
    eexists. reflexivity.
Qed.

(** First-fit returns once the fuel exceeds the length of the chain. *)
Lemma firstFit_loop_returns fuel size p s l :
  chain (memory s) p l -> (forall x, x ∈ l -> 0 < x) -> (length l < fuel)%nat ->
  exists r s', firstFit_loop fuel size p s = Done r s'.
Proof.
  intros Hl. revert fuel.
  induction Hl as [|p b l Hp Hb Hl IH]; intros fuel Hpos Hlen.
  - destruct fuel; [simpl in Hlen; lia|]. simpl.
    destruct (decide (nullptr = nullptr)); [|contradiction].
    eexists _, _. reflexivity.
  - destruct fuel; [simpl in Hlen; lia|]. simpl.
    destruct (decide (p = nullptr)); [contradiction|].
    rewrite (bind_Done_intro _ _ _ _ _ (load_Some _ _ _ Hp Hb)).
    destruct (Block.used b || bool_decide (Block.size b < size)).
    + apply IH; [|simpl in Hlen; lia].
      intros x Hx. apply Hpos. apply elem_of_cons. right. exact Hx.
    + destruct (listAllocate_returns p size s b) as (s' & Hs'); [|exact Hb|].
      * apply Hpos. apply elem_of_cons. left. reflexivity.
      * eexists _, _. exact Hs'.
Qed.

(** The links of a chain, as a path to [nullptr]. *)
Lemma chain_path m p l :
  chain m p l -> (forall x, x ∈ l -> 0 < x) ->
  match l with
  | [] => p = nullptr
  | x :: l' => p = x /\ path (links_to m) x l' nullptr
  end.
Proof.
  induction 1 as [|p b l Hp Hb Hl IH]; intros Hpos; [reflexivity|].
  split; [reflexivity|].
  assert (Hp0 : 0 < p) by (apply Hpos, elem_of_cons; left; reflexivity).
  assert (Hpos' : forall x, x ∈ l -> 0 < x)
    by (intros x Hx; apply Hpos, elem_of_cons; right; exact Hx).
  specialize (IH Hpos'). destruct l as [|y l'].
  - simpl. split; [exact Hp0|]. exists b. split; [exact Hb|exact IH].
  - destruct IH as [E IH]. simpl. split; [|exact IH].
    split; [exact Hp0|]. exists b. split; [exact Hb|exact E].
Qed.

Lemma path_app R x l1 y l2 z :
  path R x (l1 ++ y :: l2) z <-> path R x l1 y /\ path R y l2 z.
Proof.
  revert x. induction l1 as [|a l1 IH]; intros x; simpl; [reflexivity|].
  rewrite IH. tauto.
Qed.

(** A path of links whose targets are not null is a path of the scan;
    a link to [nullptr] at its end becomes the step back to the head. *)
Lemma links_wrap m head x l z :
  path (links_to m) x l z -> (forall y, y ∈ l -> y <> nullptr) ->
  path (wraps_to m head) x l (if decide (z = nullptr) then head else z).
Proof.
  revert x. induction l as [|a l IH]; intros x; simpl.
  - intros (Hx & b & Hb & <-) _. split; [exact Hx|]. exists b. split; [exact Hb|reflexivity].
  - intros [(Hx & b & Hb & <-) Hrest] Hnn. split.
    + split; [exact Hx|]. exists b. split; [exact Hb|].
      destruct (decide (Block.next b = nullptr)) as [E|_]; [|reflexivity].
      exfalso. apply (Hnn (Block.next b)); [|exact E]. apply elem_of_cons. left. reflexivity.
    + apply IH; [exact Hrest|]. intros y Hy. apply Hnn. apply elem_of_cons. right. exact Hy.
Qed.

(** From a block of the chain, the scan of next-fit runs through the rest
    of the chain, then through the blocks before it, back to that block. *)
Lemma chain_cycle m head l1 start l2 :
  chain m head (l1 ++ start :: l2) ->
  (forall x, x ∈ l1 ++ start :: l2 -> 0 < x) ->
  path (wraps_to m head) start (l2 ++ l1) start.
Proof.
  intros Hchain Hpos.
  assert (Hnn : forall y, y ∈ l1 ++ start :: l2 -> y <> nullptr).
  { intros y Hy. apply Hpos in Hy. unfold nullptr. lia. }
  pose proof (chain_path _ _ _ Hchain Hpos) as Hpath.
  destruct l1 as [|h l1]; simpl in Hpath; destruct Hpath as [-> Hpath].
  - rewrite app_nil_r.
    apply (links_wrap m start) in Hpath.
    + destruct (decide (nullptr = nullptr)); [exact Hpath|contradiction].
    + intros y Hy. apply Hnn. apply elem_of_cons. right. exact Hy.
  - apply path_app in Hpath. destruct Hpath as [Hfront Hback].
    apply path_app. split.
    + apply (links_wrap m h) in Hback.
      * destruct (decide (nullptr = nullptr)); [exact Hback|contradiction].
      * intros y Hy. apply Hnn. simpl. apply elem_of_cons. right.
        apply elem_of_app. right. apply elem_of_cons. right. exact Hy.
    + apply (links_wrap m h) in Hfront.
      * destruct (decide (start = nullptr)) as [E|_]; [|exact Hfront].
        exfalso. apply (Hnn start); [|exact E]. simpl. apply elem_of_cons. right.
        apply elem_of_app. right. apply elem_of_cons. left. reflexivity.
      * intros y Hy. apply Hnn. simpl. apply elem_of_cons. right.
        apply elem_of_app. left. exact Hy.
Qed.

Lemma nextFit_loop_returns fuel size start block s todo :
  path (wraps_to (memory s) (heapStart s)) block todo start ->
  start ∉ todo -> (length todo < fuel)%nat ->
  exists r s', nextFit_loop fuel size start block s = Done r s'.
Proof.
  revert fuel block. induction todo as [|y todo IH]; intros fuel block Hpath Hstart Hlen.
  - destruct fuel; [simpl in Hlen; lia|]. simpl in Hpath.
    destruct Hpath as (Hpos & b & Hb & Hnext).
    assert (Hblock : block <> nullptr) by (unfold nullptr; lia).
    simpl. destruct (decide (block = nullptr)); [contradiction|].
    rewrite (bind_Done_intro _ _ _ _ _ (load_Some _ _ _ Hblock Hb)).
    destruct (Block.used b || bool_decide (Block.size b < size)).
    + unfold bind at 1.
      destruct (decide (Block.next b = nullptr)); unfold get, ret;
        (destruct (decide (_ = start)); [|congruence]); eexists _, _; reflexivity.
    + unfold bind at 1. unfold modify at 1.
      destruct (listAllocate_returns block size (with_searchStart block s) b Hpos Hb)
        as (s' & Hs').
      eexists _, _. exact Hs'.
  - destruct fuel; [simpl in Hlen; lia|]. simpl in Hpath.
    destruct Hpath as [(Hpos & b & Hb & Hnext) Hrest].
    assert (Hblock : block <> nullptr) by (unfold nullptr; lia).
    apply not_elem_of_cons in Hstart. destruct Hstart as [Hy Hstart].
    simpl. destruct (decide (block = nullptr)); [contradiction|].
    rewrite (bind_Done_intro _ _ _ _ _ (load_Some _ _ _ Hblock Hb)).
    destruct (Block.used b || bool_decide (Block.size b < size)).
    + unfold bind at 1.
      destruct (decide (Block.next b = nullptr)); unfold get, ret;
        (destruct (decide (_ = start)); [congruence|]);
        rewrite <- Hnext; apply IH; try assumption; simpl in Hlen; lia.
    + unfold bind at 1. unfold modify at 1.
      destruct (listAllocate_returns block size (with_searchStart block s) b Hpos Hb)
        as (s' & Hs').
      eexists _, _. exact Hs'.
Qed.

(** Next-fit returns on a chain of blocks at positive addresses, when the
    cursor is unset or one of its blocks and the fuel exceeds the length of
    the chain: the circular scan comes back to its start. *)
Lemma nextFit_returns fuel size s l :
  chain (memory s) (heapStart s) l -> (forall x, x ∈ l -> 0 < x) ->
  searchStart s = nullptr \/ searchStart s ∈ l ->
  (length l < fuel)%nat ->
  exists r s', nextFit fuel size s = Done r s'.
Proof.
  intros Hchain Hpos Hcursor Hlen.
  unfold nextFit. unfold bind at 1. unfold get at 1.
  set (s0 := if decide (searchStart s = nullptr)
             then with_searchStart (heapStart s) s else s).
  assert (Hprep : (if decide (searchStart s = nullptr)
                   then hs <- get heapStart ;; modify (with_searchStart hs)
                   else ret tt) s = Done tt s0).
  { unfold s0. destruct (decide (searchStart s = nullptr)); reflexivity. }
  rewrite (bind_Done_intro _ _ _ _ _ Hprep).
  unfold bind at 1. unfold get at 1.
  assert (Hm : memory s0 = memory s) by (unfold s0; destruct (decide _); reflexivity).
  assert (Hh : heapStart s0 = heapStart s) by (unfold s0; destruct (decide _); reflexivity).
  assert (Hs0 : searchStart s0 = cursor_of s).
  { unfold s0, cursor_of. destruct (decide (searchStart s = nullptr)); reflexivity. }
  rewrite Hs0.
  destruct l as [|h l'].
  - (* an empty chain: the cursor can only be unset *)
    inversion Hchain as [Hnull|]; subst.
    assert (Hc : cursor_of s = nullptr).
    { unfold cursor_of. destruct Hcursor as [E|Hin].
      - rewrite E. destruct (decide (nullptr = nullptr)); [congruence|contradiction].
      - apply elem_of_nil in Hin. contradiction. }
    rewrite Hc. destruct fuel; [simpl in Hlen; lia|]. simpl.
    destruct (decide (nullptr = nullptr)); [|contradiction].
    eexists _, _. reflexivity.
  - assert (Hhead : heapStart s = h) by (inversion Hchain; reflexivity).
    assert (Hin : cursor_of s ∈ h :: l').
    { unfold cursor_of. destruct (decide (searchStart s = nullptr)) as [E|Hne].
      - rewrite Hhead. apply elem_of_cons. left. reflexivity.
      - destruct Hcursor as [E|Hin]; [contradiction|exact Hin]. }
    destruct (list_elem_of_split _ _ Hin) as (l1 & l2 & El).
    pose proof (chain_NoDup _ _ _ Hchain) as Hnodup.
    rewrite El in Hchain, Hpos, Hnodup, Hlen.
    apply (nextFit_loop_returns fuel size (cursor_of s) (cursor_of s) s0 (l2 ++ l1)).
    + rewrite Hm, Hh. apply chain_cycle; assumption.
    + apply NoDup_app in Hnodup. destruct Hnodup as (_ & Hdisj & Hnd2).
      apply NoDup_cons in Hnd2. destruct Hnd2 as [Hn2 _].
      intros Hc. apply elem_of_app in Hc. destruct Hc as [Hc|Hc]; [contradiction|].
      apply (Hdisj _ Hc). apply elem_of_cons. left. reflexivity.
    + rewrite length_app in *. simpl in Hlen. lia.
Qed.

(** ** Growth of the chain *)

Lemma requestFromOS_granted size s :
  0 < program_break s ->
  to_intptr (allocSize size) <= 0
  \/ program_break s + to_intptr (allocSize size) <= break_limit s ->
  exists s', requestFromOS size s = Done (program_break s) s' /\
             memory s' = memory s /\ searchMode s' = searchMode s.
Proof.
  intros Hpos Hgrant. unfold requestFromOS, bind, sbrk.
  destruct (decide (0 <= 0 \/ program_break s + 0 <= break_limit s)) as [_|n];
    [|exfalso; apply n; left; lia].
  simpl. rewrite Z.add_0_r.
  destruct (decide (to_intptr (allocSize size) <= 0
                    \/ program_break s + to_intptr (allocSize size) <= break_limit s));
    [|contradiction].
  destruct (decide (program_break s = -1)); [lia|].
  eexists. split; [reflexivity|]. split; reflexivity.
Qed.

(** When the search misses outside segregated mode and the operating
    system grants the memory, [alloc] returns the block at the old break. *)
Lemma alloc_grows fuel size s s1 :
  findBlock fuel (align size) s = Done nullptr s1 ->
  searchMode s1 <> SegregatedList ->
  0 < program_break s1 ->
  to_intptr (allocSize (align size)) <= 0
  \/ program_break s1 + to_intptr (allocSize (align size)) <= break_limit s1 ->
  exists s', alloc fuel size s = Done (data_of (program_break s1)) s'.
Proof.
  intros Hfind Hmode Hpos Hgrant. unfold alloc.
  rewrite (bind_Done_intro _ _ _ _ _ Hfind).
  destruct (decide (nullptr <> nullptr)); [contradiction|].
  destruct (requestFromOS_granted _ _ Hpos Hgrant) as (s2 & Hos & _ & Hmode2).
  rewrite (bind_Done_intro _ _ _ _ _ Hos).
  assert (Hblock : program_break s1 <> nullptr) by (unfold nullptr; lia).
  rewrite (bind_Done_intro _ _ _ _ _ (store_nonnull _ _ _ Hblock)).
  rewrite (bind_Done_intro _ _ _ _ _ (store_nonnull _ _ _ Hblock)).
  unfold bind at 1. unfold get at 1.
  match goal with |- context [decide (?a = SegregatedList)] =>
    change a with (searchMode s2); destruct (decide (searchMode s2 = SegregatedList))
  end; [congruence|].
  unfold bind, get, modify, ret.
  repeat match goal with
         | |- context [decide (?a = nullptr)] => destruct (decide (a = nullptr))
         | |- context [decide (?a <> nullptr)] => destruct (decide (a <> nullptr))
         | |- context [store ?p ?f ?t] => rewrite (store_nonnull p f t) by assumption
         end;
    eexists; reflexivity.
Qed.

(** In next-fit mode [alloc] returns on a chain of blocks at positive
    addresses whose cursor is unset or in the chain, given fuel beyond
    the length of the chain and room for the request below the limit of
    the break. *)
Lemma alloc_next_fit_returns fuel size s l :
  searchMode s = NextFit ->
  chain (memory s) (heapStart s) l -> (forall x, x ∈ l -> 0 < x) ->
  searchStart s = nullptr \/ searchStart s ∈ l ->
  (length l < fuel)%nat ->
  0 < program_break s ->
  program_break s + to_intptr (allocSize (align size)) <= break_limit s ->
  exists h s', alloc fuel size s = Done h s'.
Proof.
  intros Hmode Hchain Hpos Hcursor Hlen Hbreak Hroom.
  destruct (nextFit_returns fuel (align size) s l Hchain Hpos Hcursor Hlen)
    as (r & s1 & Hnext).
  assert (Hfind : findBlock fuel (align size) s = Done r s1).
  { unfold findBlock, bind, get. rewrite Hmode. exact Hnext. }
  destruct (decide (r = nullptr)) as [->|Hr].
  - apply nextFit_Done in Hnext. simpl in Hnext.
    destruct Hnext as [[_ ->]|[Hn _]]; [|contradiction].
    destruct (alloc_grows fuel size s _ Hfind) as (s' & Hs').
    + simpl. rewrite Hmode. discriminate.
    + exact Hbreak.
    + right. exact Hroom.
    + eexists _, _. exact Hs'.
  - unfold alloc. rewrite (bind_Done_intro _ _ _ _ _ Hfind).
    destruct (decide (r <> nullptr)); [|contradiction].
    eexists _, _. reflexivity.
Qed.

(** ** Coalescing on [free] *)

Lemma canCoalesce_run block s b n :
  block <> nullptr -> memory s !! block = Some b ->
  Block.next b <> nullptr -> memory s !! Block.next b = Some n ->
  canCoalesce block s = Done (negb (Block.used n)) s.
Proof.
  intros Hblock Hb Hnext Hn. unfold canCoalesce.
  rewrite (bind_Done_intro _ _ _ _ _ (load_Some _ _ _ Hblock Hb)).
  destruct (decide (Block.next b = nullptr)); [contradiction|].
  rewrite (bind_Done_intro _ _ _ _ _ (load_Some _ _ _ Hnext Hn)).
  reflexivity.
Qed.

Lemma coalesce_run block s b n :
  block <> nullptr -> memory s !! block = Some b ->
  Block.next b <> nullptr -> Block.next b <> block ->
  memory s !! Block.next b = Some n -> Block.used n = false ->
  coalesce block s = Done block (coalesced block b n s).
Proof.
  intros Hblock Hb Hnext Hne Hn Hfree. unfold coalesce, coalesced.
  rewrite (bind_Done_intro _ _ _ _ _ (load_Some _ _ _ Hblock Hb)).
  rewrite (bind_Done_intro _ _ _ _ _ (load_Some _ _ _ Hnext Hn)).
  rewrite Hfree. simpl negb. cbv iota.
  set (s0 := if decide (Block.next b = top s) then with_top block s else s).
  assert (Hm0 : memory s0 = memory s) by (unfold s0; destruct (decide _); reflexivity).
  assert (Hb0 : memory s0 !! block = Some b) by (rewrite Hm0; exact Hb).
  assert (Hn0 : memory s0 !! Block.next b = Some n) by (rewrite Hm0; exact Hn).
  set (b1 := Block.set_size (wrap (Block.size b + Block.size n)) b).
  set (s1 := stored block (Block.set_size (wrap (Block.size b + Block.size n))) s0).
  assert (Hb1 : memory s1 !! block = Some b1).
  { unfold s1. rewrite stored_lookup_eq, Hb0. reflexivity. }
  assert (Hn1 : memory s1 !! Block.next b1 = Some n).
  { unfold s1. rewrite stored_lookup_ne by (simpl; congruence). exact Hn0. }
  unfold bind at 1. unfold bind at 1. unfold get at 1. unfold bind at 1.
  replace ((if decide (Block.next b = top s) then modify (with_top block) else ret tt) s)
    with (Done tt s0) by (unfold s0; destruct (decide _); reflexivity).
  rewrite (bind_Done_intro _ _ _ _ _ (load_Some _ _ _ Hblock Hb0)).
  rewrite (bind_Done_intro _ _ _ _ _ (load_Some _ _ _ Hnext Hn0)).
  rewrite (bind_Done_intro _ _ _ _ _ (store_nonnull _ _ _ Hblock)).
  fold s1.
  rewrite (bind_Done_intro _ _ _ _ _ (load_Some _ _ _ Hblock Hb1)).
  rewrite (bind_Done_intro _ _ _ _ _ (load_Some _ _ _ Hnext Hn1)).
  rewrite (store_nonnull _ _ _ Hblock).
  reflexivity.
Qed.

Lemma free_run data s b n :
  searchMode s <> SegregatedList ->
  getHeader data <> nullptr -> memory s !! getHeader data = Some b ->
  Block.next b <> nullptr -> Block.next b <> getHeader data ->
  memory s !! Block.next b = Some n -> Block.used n = false ->
  free data s = Done tt (freed (getHeader data) b n s).
Proof.
  intros Hmode Hblock Hb Hnext Hne Hn Hfree. unfold free, freed.
  unfold bind at 1. unfold get at 1.
  destruct (decide (searchMode s <> SegregatedList)); [|contradiction].
  rewrite (bind_Done_intro _ _ _ _ _ (canCoalesce_run _ _ _ _ Hblock Hb Hnext Hn)).
  rewrite Hfree. simpl negb. cbv iota.
  rewrite (bind_Done_intro _ _ _ _ _ (coalesce_run _ _ _ _ Hblock Hb Hnext Hne Hn Hfree)).
  rewrite (bind_Done_intro _ _ _ _ _ (store_nonnull _ _ _ Hblock)).
  destruct (decide (searchMode s = FreeList)); reflexivity.
Qed.

Lemma freed_header block b n s :
  memory s !! block = Some b ->
  memory (freed block b n s) !! block
  = Some (Block.mk (wrap (Block.size b + Block.size n)) false (Block.next n)).
Proof.
  intros Hb.
  assert (Hm : forall t, memory (if decide (searchMode s = FreeList)
                                 then with_free_list (push_back block (free_list t)) t
                                 else t) = memory t)
    by (intros t; destruct (decide _); reflexivity).
  unfold freed. rewrite Hm. unfold coalesced. rewrite !stored_lookup_eq.
  replace (memory (if decide (Block.next b = top s) then with_top block s else s))
    with (memory s) by (destruct (decide (Block.next b = top s)); reflexivity).
  rewrite Hb. reflexivity.
Qed.





(** * Further properties of the allocator *)

(** ** [free] *)

(** X1. Whatever the mode, when [free] returns, the header behind the
    handle is marked unused. *)
Theorem free_marks_block_unused data s u s' :
  free data s = Done u s' ->
  exists b, headerOf s' data = Some b /\ Block.used b = false.
Proof.
  unfold free, headerOf. intros H.
  apply bind_Done in H. destruct H as (mode & s0 & Hget & H).
  apply get_Done in Hget. destruct Hget as [-> ->].
  apply bind_Done in H. destruct H as (can & s1 & _ & H).
  apply bind_Done in H. destruct H as (block & s2 & Hblock & H).
  assert (Eblock : block = getHeader data).
  { destruct can; [|apply ret_Done in Hblock; apply Hblock].
    apply coalesce_Done in Hblock. apply Hblock. }
  subst block.
  apply bind_Done in H. destruct H as (? & s3 & Hstore & H).
  apply store_Done in Hstore. destruct Hstore as [_ ->].
  exists (Block.set_used false (default Block.zeroed (memory s2 !! getHeader data))).
  split; [|reflexivity].
  destruct (decide (searchMode s = FreeList)); finished; simpl; apply lookup_insert_eq.
Qed.

Lemma free_marks_block_unused_witness :
  exists b,
    headerOf (state_after (free 4152) (state_after (coalescing_session 4) fresh_process))
             4152 = Some b /\
    Block.used b = false.
Proof.
  apply (free_marks_block_unused 4152
           (state_after (coalescing_session 4) fresh_process) tt).
  vm_compute. reflexivity.
Defined.







(** ** First-fit *)

Lemma skipped_false size b :
  skipped size b = false <-> Block.used b = false /\ size <= Block.size b.
Proof.
  unfold skipped. destruct (Block.used b); simpl.
  - split; [discriminate|intros [H _]; discriminate].
  - rewrite bool_decide_eq_false. split; [intros H; split; [reflexivity|lia]|intros [_ H]; lia].
Qed.

Lemma firstFit_loop_first_fit fuel size p s l r s' :
  chain (memory s) p l ->
  firstFit_loop fuel size p s = Done r s' ->
  (r = nullptr /\ s' = s /\ all_skipped (memory s) size l) \/
  (exists l1 l2 b,
      l = l1 ++ r :: l2 /\ all_skipped (memory s) size l1 /\
      memory s !! r = Some b /\ skipped size b = false /\
      listAllocate r size s = Done r s').
Proof.
  intros Hl. revert fuel. induction Hl as [|p b l Hp Hb Hl IH]; intros fuel H.
  - destruct fuel; [discriminate|]. simpl in H.
    destruct (decide (nullptr = nullptr)); [|contradiction].
    apply ret_Done in H. destruct H as [-> ->]. left.
    split; [reflexivity|]. split; [reflexivity|].
    intros x Hx. apply elem_of_nil in Hx. contradiction.
  - destruct fuel; [discriminate|]. simpl in H.
    destruct (decide (p = nullptr)); [contradiction|].
    rewrite (bind_Done_intro _ _ _ _ _ (load_Some _ _ _ Hp Hb)) in H.
    fold (skipped size b) in H. destruct (skipped size b) eqn:Hskip.
    + destruct (IH _ H) as [(-> & -> & Hall)|(l1 & l2 & b' & -> & Hall & Hb' & Hfit & Hrun)].
      * left. split; [reflexivity|]. split; [reflexivity|].
        intros x Hx. apply elem_of_cons in Hx. destruct Hx as [->|Hx]; [|apply Hall, Hx].
        exists b. split; assumption.
      * right. exists (p :: l1), l2, b'. split; [reflexivity|].
        split; [|repeat split; assumption].
        intros x Hx. apply elem_of_cons in Hx. destruct Hx as [->|Hx]; [|apply Hall, Hx].
        exists b. split; assumption.
    + right. exists [], l, b.
      pose proof (listAllocate_Done _ _ _ _ _ H) as (-> & _).
      split; [reflexivity|]. split; [|repeat split; assumption].
      intros x Hx. apply elem_of_nil in Hx. contradiction.
Qed.

(** X3. First-fit takes the first block of the chain that is free and
    large enough: when [firstFit] returns a block, every block before it in
    the chain was in use or too small, and the block itself was free with
    at least the requested size; when it returns [nullptr], every block
    of the chain was in use or too small and nothing has changed. *)
Theorem firstFit_takes_first_fit fuel size s l r s' :
  chain (memory s) (heapStart s) l ->
  firstFit fuel size s = Done r s' ->
  (r = nullptr /\ s' = s /\ all_skipped (memory s) size l) \/
  (exists l1 l2 b,
      l = l1 ++ r :: l2 /\ all_skipped (memory s) size l1 /\
      memory s !! r = Some b /\ Block.used b = false /\ size <= Block.size b /\
      carries s' r size true).
Proof.
  intros Hl H. unfold firstFit in H.
  apply bind_Done in H. destruct H as (hs & s0 & Hget & H).
  apply get_Done in Hget. destruct Hget as [-> ->].
  destruct (firstFit_loop_first_fit _ _ _ _ _ _ _ Hl H)
    as [Hmiss|(l1 & l2 & b & El & Hall & Hb & Hfit & Hrun)]; [left; exact Hmiss|].
  right. exists l1, l2, b. apply skipped_false in Hfit. destruct Hfit as [Hfree Hsize].
  apply listAllocate_Done in Hrun. destruct Hrun as (_ & _ & _ & Hcar).
  repeat split; assumption.
Qed.

Lemma firstFit_takes_first_fit_witness :
  let s := state_after (free 4152) (state_after (coalescing_session 4) fresh_process) in
  (4128 = nullptr /\ state_after (firstFit 4 16) s = s
   /\ all_skipped (memory s) 16 [4096; 4128]) \/
  (exists l1 l2 b,
      [4096; 4128] = l1 ++ 4128 :: l2 /\ all_skipped (memory s) 16 l1 /\
      memory s !! 4128 = Some b /\ Block.used b = false /\ 16 <= Block.size b /\
      carries (state_after (firstFit 4 16) s) 4128 16 true).
Proof.
  intros s.
  refine (firstFit_takes_first_fit 4 16 s [4096; 4128] 4128
            (state_after (firstFit 4 16) s) _ _).
  - apply (chain_link _ 4096 (Block.mk 8 true 4128)); [discriminate|vm_compute; reflexivity|].
    apply (chain_link _ 4128 (Block.mk 16 false nullptr));
      [discriminate|vm_compute; reflexivity|].
    apply chain_end.
  - vm_compute. reflexivity.
Defined.





(** ** Best-fit *)

(** What the scan of best-fit has settled when it leaves the chain [l],
    having started with the candidate [best]: the candidate itself when
    nothing in [l] fits, and otherwise a fitting free block of [l] that is
    strictly smaller than every other fitting free block of [l] and than
    the candidate it started with. *)
Lemma bestFit_loop_minimum fuel size p best s l r s' :
  chain (memory s) p l ->
  bestFit_loop fuel size p best s = Done r s' ->
  (r = best /\ all_skipped (memory s) size l) \/
  (exists br,
      r ∈ l /\ memory s !! r = Some br /\ skipped size br = false /\
      (forall x bx, x ∈ l -> x <> r -> memory s !! x = Some bx ->
                    skipped size bx = false -> Block.size br < Block.size bx) /\
      (forall bb, best <> nullptr -> memory s !! best = Some bb ->
                  Block.size br < Block.size bb)).
Proof.
  revert p best l. induction fuel as [|fuel IH]; intros p best l Hl H; [discriminate|].
  simpl in H. destruct (decide (p = nullptr)) as [->|Hp].
  - apply ret_Done in H. destruct H as [-> _]. left. split; [reflexivity|].
    inversion Hl; subst; [|contradiction].
    intros x Hx. apply elem_of_nil in Hx. contradiction.
  - inversion Hl as [Hnull|? b l' _ Hb Hl']; subst; [contradiction|].
    pose proof (chain_NoDup _ _ _ Hl) as Hnodup.
    apply NoDup_cons in Hnodup. destruct Hnodup as [Hpl _].
    rewrite (bind_Done_intro _ _ _ _ _ (load_Some _ _ _ Hp Hb)) in H.
    fold (skipped size b) in H. destruct (skipped size b) eqn:Hskip.
    + (* the block is passed over *)
      destruct (IH _ _ _ Hl' H) as [(-> & Hall)|(br & Hr & Hbr & Hfit & Hmin & Hbest)].
      * left. split; [reflexivity|]. intros x Hx.
        apply elem_of_cons in Hx. destruct Hx as [->|Hx]; [|apply Hall, Hx].
        exists b. split; assumption.
      * right. exists br. split; [apply elem_of_cons; right; exact Hr|].
        split; [exact Hbr|]. split; [exact Hfit|]. split; [|exact Hbest].
        intros x bx Hx Hne Hbx Hfx. apply elem_of_cons in Hx.
        destruct Hx as [->|Hx]; [congruence|]. eapply Hmin; eassumption.
    + apply bind_Done in H. destruct H as (smaller & s0 & Hcmp & H).
      assert (Hs0 : s0 = s /\
                    (smaller = true ->
                     forall bb, best <> nullptr -> memory s !! best = Some bb ->
                                Block.size b < Block.size bb)).
      { destruct (decide (best = nullptr)) as [->|Hbest].
        - apply ret_Done in Hcmp. destruct Hcmp as [-> ->]. split; [reflexivity|].
          intros _ bb Hc. contradiction.
        - apply bind_Done in Hcmp. destruct Hcmp as (bb0 & s1 & Hload & Hret).
          apply load_Done in Hload. destruct Hload as (-> & _ & Hbb0).
          apply ret_Done in Hret. destruct Hret as [-> ->]. split; [reflexivity|].
          intros Hlt bb _ Hbb. rewrite Hbb0 in Hbb. injection Hbb as <-.
          apply bool_decide_eq_true in Hlt. exact Hlt. }
      destruct Hs0 as [-> Hsmaller]. destruct smaller.
      * (* the block becomes the candidate *)
        specialize (Hsmaller eq_refl).
        destruct (IH _ _ _ Hl' H) as [(-> & Hall)|(br & Hr & Hbr & Hfit & Hmin & Hbest)].
        -- right. exists b. split; [apply elem_of_cons; left; reflexivity|].
           split; [exact Hb|]. split; [exact Hskip|]. split; [|exact Hsmaller].
           intros x bx Hx Hne Hbx Hfx. apply elem_of_cons in Hx.
           destruct Hx as [->|Hx]; [contradiction|].
           destruct (Hall x Hx) as (bx' & Hbx' & Hsk). congruence.
        -- right. exists br. split; [apply elem_of_cons; right; exact Hr|].
           split; [exact Hbr|]. split; [exact Hfit|].
           assert (Hrb : Block.size br < Block.size b) by (apply Hbest; assumption).
           split.
           ++ intros x bx Hx Hne Hbx Hfx. apply elem_of_cons in Hx.
              destruct Hx as [->|Hx]; [|eapply Hmin; eassumption].
              rewrite Hb in Hbx. injection Hbx as <-. exact Hrb.
           ++ intros bb Hbn Hbb. specialize (Hsmaller bb Hbn Hbb). lia.
      * (* the scan stays on the block *)
        eapply IH; [exact Hl|exact H].
Qed.

(** X5. When best-fit returns a block, that block was free and large
    enough, and every other free block of the chain that was large enough
    was strictly larger; when it returns [nullptr], every block of the
    chain was in use or too small and nothing has changed. *)
Theorem bestFit_returns_strict_minimum fuel size s l r s' :
  chain (memory s) (heapStart s) l ->
  bestFit fuel size s = Done r s' ->
  (r = nullptr /\ s' = s /\ all_skipped (memory s) size l) \/
  (exists br,
      r ∈ l /\ memory s !! r = Some br /\
      Block.used br = false /\ size <= Block.size br /\
      (forall x bx, x ∈ l -> x <> r -> memory s !! x = Some bx ->
                    Block.used bx = false -> size <= Block.size bx ->
                    Block.size br < Block.size bx) /\
      carries s' r size true).
Proof.
  intros Hl H. unfold bestFit in H.
  apply bind_Done in H. destruct H as (hs & s0 & Hget & H).
  apply get_Done in Hget. destruct Hget as [-> ->].
  apply bind_Done in H. destruct H as (best & s1 & Hloop & H).
  pose proof (bestFit_loop_Done _ _ _ _ _ _ _ Hloop) as ->.
  destruct (bestFit_loop_minimum _ _ _ _ _ _ _ _ Hl Hloop)
    as [(-> & Hall)|(br & Hr & Hbr & Hfit & Hmin & _)].
  - destruct (decide (nullptr = nullptr)); [|contradiction].
    apply ret_Done in H. destruct H as [-> ->]. left. repeat split. exact Hall.
  - assert (Hn : best <> nullptr) by (eapply chain_nonnull; eassumption).
    destruct (decide (best = nullptr)); [contradiction|].
    apply listAllocate_Done in H. destruct H as (-> & _ & _ & Hcar).
    right. exists br. apply skipped_false in Hfit. destruct Hfit as [Hfree Hsize].
    split; [exact Hr|]. split; [exact Hbr|]. split; [exact Hfree|]. split; [exact Hsize|].
    split; [|exact Hcar].
    intros x bx Hx Hne Hbx Hfx Hsx. eapply Hmin; try eassumption.
    apply skipped_false. split; assumption.
Qed.

Lemma bestFit_returns_strict_minimum_witness :
  let s := state_after (best_fit_session 5) fresh_process in
  (4248 = nullptr /\ state_after (bestFit 5 16) s = s
   /\ all_skipped (memory s) 16 [4096; 4128; 4216; 4248]) \/
  (exists br,
      4248 ∈ [4096; 4128; 4216; 4248] /\ memory s !! 4248 = Some br /\
      Block.used br = false /\ 16 <= Block.size br /\
      (forall x bx, x ∈ [4096; 4128; 4216; 4248] -> x <> 4248 ->
                    memory s !! x = Some bx ->
                    Block.used bx = false -> 16 <= Block.size bx ->
                    Block.size br < Block.size bx) /\
      carries (state_after (bestFit 5 16) s) 4248 16 true).
Proof.
  intros s.
  refine (bestFit_returns_strict_minimum 5 16 s [4096; 4128; 4216; 4248] 4248
            (state_after (bestFit 5 16) s) _ _).
  - apply (chain_link _ 4096 (Block.mk 8 true 4128)); [discriminate|vm_compute; reflexivity|].
    apply (chain_link _ 4128 (Block.mk 64 false 4216));
      [discriminate|vm_compute; reflexivity|].
    apply (chain_link _ 4216 (Block.mk 8 true 4248));
      [discriminate|vm_compute; reflexivity|].
    apply (chain_link _ 4248 (Block.mk 16 false nullptr));
      [discriminate|vm_compute; reflexivity|].
    apply chain_end.
  - vm_compute. reflexivity.
Defined.

Lemma bestFit_loop_descends fuel size p best s l r s' bound :
  chain (memory s) p l ->
  bound_of (memory s) best bound ->
  bestFit_loop fuel size p best s = Done r s' ->
  descends (memory s) size bound l.
Proof.
  revert p best l bound. induction fuel as [|fuel IH]; intros p best l bound Hl Hbound H;
    [discriminate|].
  simpl in H. destruct (decide (p = nullptr)) as [->|Hp].
  - inversion Hl; subst; [exact I|contradiction].
  - inversion Hl as [Hnull|? b l' _ Hb Hl']; subst; [contradiction|].
    rewrite (bind_Done_intro _ _ _ _ _ (load_Some _ _ _ Hp Hb)) in H.
    fold (skipped size b) in H. destruct (skipped size b) eqn:Hskip.
    + simpl. exists b. split; [exact Hb|]. rewrite Hskip.
      eapply IH; eassumption.
    + apply bind_Done in H. destruct H as (smaller & s0 & Hcmp & H).
      destruct smaller.
      * assert (Hs0 : s0 = s /\ match bound with
                                | Some k => Block.size b < k
                                | None => True
                                end).
        { destruct Hbound as [[-> ->]|(Hbest & bb & Hbb & ->)].
          - destruct (decide (nullptr = nullptr)); [|contradiction].
            apply ret_Done in Hcmp. destruct Hcmp as [_ ->]. split; [reflexivity|exact I].
          - destruct (decide (best = nullptr)); [contradiction|].
            apply bind_Done in Hcmp. destruct Hcmp as (bb0 & s1 & Hload & Hret).
            apply load_Done in Hload. destruct Hload as (-> & _ & Hbb0).
            apply ret_Done in Hret. destruct Hret as [Hlt ->]. split; [reflexivity|].
            rewrite Hbb in Hbb0. injection Hbb0 as <-.
            symmetry in Hlt. apply bool_decide_eq_true in Hlt. exact Hlt. }
        destruct Hs0 as [-> Hbelow].
        simpl. exists b. split; [exact Hb|]. rewrite Hskip. split; [exact Hbelow|].
        eapply IH; [exact Hl'| |exact H].
        right. split; [exact Hp|]. exists b. split; [exact Hb|reflexivity].
      * assert (Hs0 : s0 = s).
        { destruct (decide (best = nullptr)).
          - apply ret_Done in Hcmp. apply Hcmp.
          - apply bind_Done in Hcmp. destruct Hcmp as (bb0 & s1 & Hload & Hret).
            apply load_Done in Hload. destruct Hload as (-> & _).
            apply ret_Done in Hret. apply Hret. }
        subst s0. eapply IH; [exact Hl|exact Hbound|exact H].
Qed.

Lemma bestFit_loop_returns fuel size p best s l bound :
  chain (memory s) p l ->
  bound_of (memory s) best bound ->
  descends (memory s) size bound l ->
  (length l < fuel)%nat ->
  exists r, bestFit_loop fuel size p best s = Done r s /\ (r = best \/ r ∈ l).
Proof.
  intros Hl. revert fuel best bound.
  induction Hl as [|p b l Hp Hb Hl IH]; intros fuel best bound Hbound Hdesc Hlen.
  - destruct fuel; [simpl in Hlen; lia|]. simpl.
    destruct (decide (nullptr = nullptr)); [|contradiction].
    exists best. split; [reflexivity|left; reflexivity].
  - destruct fuel; [simpl in Hlen; lia|]. simpl.
    destruct (decide (p = nullptr)); [contradiction|].
    rewrite (bind_Done_intro _ _ _ _ _ (load_Some _ _ _ Hp Hb)).
    simpl in Hdesc. destruct Hdesc as (b' & Hb' & Hdesc).
    rewrite Hb in Hb'. injection Hb' as <-.
    fold (skipped size b). destruct (skipped size b) eqn:Hskip.
    + destruct (IH fuel best bound Hbound Hdesc ltac:(simpl in Hlen; lia))
        as (r & Hr & Hin).
      exists r. split; [exact Hr|].
      destruct Hin as [->|Hin]; [left; reflexivity|right; apply elem_of_cons; right; exact Hin].
    + destruct Hdesc as [Hbelow Hdesc].
      assert (Hcmp : (if decide (best = nullptr) then ret true
                      else bb <- load best ;;
                           ret (bool_decide (Block.size b < Block.size bb))) s
                     = Done true s).
      { destruct Hbound as [[-> ->]|(Hbest & bb & Hbb & ->)].
        - destruct (decide (nullptr = nullptr)); [reflexivity|contradiction].
        - destruct (decide (best = nullptr)); [contradiction|].
          rewrite (bind_Done_intro _ _ _ _ _ (load_Some _ _ _ Hbest Hbb)).
          unfold ret. rewrite bool_decide_eq_true_2 by exact Hbelow. reflexivity. }
      rewrite (bind_Done_intro _ _ _ _ _ Hcmp).
      destruct (IH fuel p (Some (Block.size b))) as (r & Hr & Hin);
        [right; split; [exact Hp|]; exists b; split; [exact Hb|reflexivity]
        |exact Hdesc|simpl in Hlen; lia|].
      exists r. split; [exact Hr|]. right.
      destruct Hin as [->|Hin]; apply elem_of_cons; [left; reflexivity|right; exact Hin].
Qed.

(** X6. On a chain of blocks at positive addresses, best-fit returns,
    given enough fuel, exactly when the sizes of the free blocks that are
    large enough decrease strictly along the chain: a later block that
    fits without being smaller than the best one so far stops the scan
    for good. *)
Theorem bestFit_returns_iff_descending size s l :
  chain (memory s) (heapStart s) l ->
  (forall x, x ∈ l -> 0 < x) ->
  (exists fuel r s', bestFit fuel size s = Done r s') <->
  descends (memory s) size None l.
Proof.
  intros Hl Hpos. split.
  - intros (fuel & r & s' & H). unfold bestFit in H.
    apply bind_Done in H. destruct H as (hs & s0 & Hget & H).
    apply get_Done in Hget. destruct Hget as [-> ->].
    apply bind_Done in H. destruct H as (best & s1 & Hloop & _).
    eapply bestFit_loop_descends; [exact Hl| |exact Hloop].
    left. split; reflexivity.
  - intros Hdesc.
    destruct (bestFit_loop_returns (S (length l)) size (heapStart s) nullptr s l None Hl)
      as (best & Hloop & Hin); [left; split; reflexivity|exact Hdesc|lia|].
    exists (S (length l)). unfold bestFit. unfold bind at 1. unfold get at 1.
    rewrite (bind_Done_intro _ _ _ _ _ Hloop).
    destruct (decide (best = nullptr)) as [->|Hbest]; [eexists _, _; reflexivity|].
    destruct Hin as [->|Hin]; [contradiction|].
    destruct (chain_suffix _ _ _ _ Hl Hin) as (l1 & l2 & _ & Hc).
    inversion Hc as [|? bb ? _ Hbb _]; subst.
    destruct (listAllocate_returns best size s bb (Hpos _ Hin) Hbb) as (s' & Hs').
    eexists _, _. exact Hs'.
Qed.

Lemma bestFit_returns_iff_descending_witness :
  let s := state_after (best_fit_session 5) fresh_process in
  (exists fuel r s', bestFit fuel 16 s = Done r s') <->
  descends (memory s) 16 None [4096; 4128; 4216; 4248].
Proof.
  intros s.
  apply (bestFit_returns_iff_descending 16 s [4096; 4128; 4216; 4248]).
  - apply (chain_link _ 4096 (Block.mk 8 true 4128)); [discriminate|vm_compute; reflexivity|].
    apply (chain_link _ 4128 (Block.mk 64 false 4216));
      [discriminate|vm_compute; reflexivity|].
    apply (chain_link _ 4216 (Block.mk 8 true 4248));
      [discriminate|vm_compute; reflexivity|].
    apply (chain_link _ 4248 (Block.mk 16 false nullptr));
      [discriminate|vm_compute; reflexivity|].
    apply chain_end.
  - intros x Hx. repeat (apply elem_of_cons in Hx; destruct Hx as [->|Hx]; [lia|]).
    apply elem_of_nil in Hx. contradiction.
Defined.

(** ** The explicit free list *)

Lemma freeList_scan_first l size s r s' :
  freeList_scan l size s = Done r s' ->
  s' = s /\
  ((r = nullptr /\ all_too_small (memory s) size l) \/
   (exists l1 l2 b,
       l = l1 ++ r :: l2 /\ all_too_small (memory s) size l1 /\
       r <> nullptr /\ memory s !! r = Some b /\ size <= Block.size b)).
Proof.
  revert r s'. induction l as [|x l IH]; intros r s' H; simpl in H.
  - apply ret_Done in H. destruct H as [-> ->]. split; [reflexivity|]. left.
    split; [reflexivity|]. intros y Hy. apply elem_of_nil in Hy. contradiction.
  - apply bind_Done in H. destruct H as (b & s0 & Hload & H).
    apply load_Done in Hload. destruct Hload as (-> & Hx & Hb).
    destruct (bool_decide (size <= Block.size b)) eqn:Hfit.
    + apply ret_Done in H. destruct H as [-> ->]. split; [reflexivity|]. right.
      exists [], l, b. apply bool_decide_eq_true in Hfit.
      split; [reflexivity|]. split; [|repeat split; assumption].
      intros y Hy. apply elem_of_nil in Hy. contradiction.
    + apply bool_decide_eq_false in Hfit.
      destruct (IH _ _ H) as (-> & Hcases). split; [reflexivity|].
      assert (Hsmall : exists bx, memory s !! x = Some bx /\ Block.size bx < size)
        by (exists b; split; [exact Hb|lia]).
      destruct Hcases as [(-> & Hall)|(l1 & l2 & br & -> & Hall & Hr & Hbr & Hsize)].
      * left. split; [reflexivity|]. intros y Hy. apply elem_of_cons in Hy.
        destruct Hy as [->|Hy]; [exact Hsmall|apply Hall, Hy].
      * right. exists (x :: l1), l2, br. split; [reflexivity|].
        split; [|repeat split; assumption].
        intros y Hy. apply elem_of_cons in Hy.
        destruct Hy as [->|Hy]; [exact Hsmall|apply Hall, Hy].
Qed.

(** What [listAllocate] does to the free list: in explicit-free-list mode
    a split appends the block it returns, and nothing else touches the
    list. *)
Lemma listAllocate_free_list block size s b r s' :
  memory s !! block = Some b ->
  listAllocate block size s = Done r s' ->
  free_list s' =
  free_list s ++ (if decide (searchMode s = FreeList)
                  then (if canSplit_sizes (Block.size b) size then [block] else [])
                  else []).
Proof.
  intros Hb H. unfold listAllocate, canSplit, split in H.
  apply bind_Done in H. destruct H as (mode & s0 & Hget & H).
  apply get_Done in Hget. destruct Hget as [-> ->].
  apply bind_Done in H. destruct H as (can & s0 & Hcan & H).
  assert (Hc : s0 = s /\ can = (if decide (searchMode s <> SegregatedList)
                                then canSplit_sizes (Block.size b) size else false)).
  { destruct (decide (searchMode s <> SegregatedList)).
    - apply bind_Done in Hcan. destruct Hcan as (b0 & s1 & Hload & Hret).
      apply load_Done in Hload. destruct Hload as (-> & _ & Hb0).
      apply ret_Done in Hret. destruct Hret as [-> ->].
      rewrite Hb in Hb0. injection Hb0 as <-. split; reflexivity.
    - apply ret_Done in Hcan. destruct Hcan as [-> ->]. split; reflexivity. }
  destruct Hc as [-> ->].
  destruct (decide (searchMode s <> SegregatedList)) as [Hns|Hseg].
  - destruct (canSplit_sizes (Block.size b) size).
    + finished; simpl in *; try congruence.
      all: match goal with |- context [decide (?m = FreeList)] =>
             destruct (decide (m = FreeList)) end; try congruence; simpl.
      all: try reflexivity; try (rewrite app_nil_r; reflexivity).
    + finished; simpl.
      match goal with |- context [decide (?m = FreeList)] =>
        destruct (decide (m = FreeList)) end; rewrite app_nil_r; reflexivity.
  - finished; simpl.
    match goal with |- context [decide (?m = FreeList)] =>
      destruct (decide (m = FreeList)) as [E|] end; [|rewrite app_nil_r; reflexivity].
    exfalso. apply Hseg. rewrite E. discriminate.
Qed.

(** X7. The explicit-free-list search takes the first entry of the free
    list whose header records at least the requested size, and removes
    every occurrence of it from the list (a split puts the block back at
    the end); when no entry is large enough it returns [nullptr] and
    changes nothing. *)
Theorem freeList_takes_first_listed_fit size s r s' :
  searchMode s = FreeList ->
  freeList size s = Done r s' ->
  (r = nullptr /\ s' = s /\ all_too_small (memory s) size (free_list s)) \/
  (exists l1 l2 b,
      free_list s = l1 ++ r :: l2 /\ all_too_small (memory s) size l1 /\
      memory s !! r = Some b /\ size <= Block.size b /\
      carries s' r size true /\
      free_list s' =
      list_remove r (free_list s)
      ++ (if canSplit_sizes (Block.size b) size then [r] else [])).
Proof.
  intros Hmode H. unfold freeList in H.
  apply bind_Done in H. destruct H as (l & s0 & Hget & H).
  apply get_Done in Hget. destruct Hget as [-> ->].
  apply bind_Done in H. destruct H as (found & s0 & Hscan & H).
  apply freeList_scan_first in Hscan. destruct Hscan as (-> & Hcases).
  destruct Hcases as [(-> & Hall)|(l1 & l2 & b & El & Hall & Hr & Hb & Hsize)].
  - destruct (decide (nullptr <> nullptr)); [contradiction|].
    apply ret_Done in H. destruct H as [-> ->]. left. repeat split. exact Hall.
  - destruct (decide (found <> nullptr)); [|contradiction].
    apply bind_Done in H. destruct H as (? & s1 & Hmod & H).
    apply modify_Done in Hmod. subst s1.
    pose proof (listAllocate_Done _ _ _ _ _ H) as (-> & _ & _ & Hcar).
    pose proof (listAllocate_free_list found size
                  (with_free_list (list_remove found (free_list s)) s) b _ _ Hb H)
      as Hlist.
    simpl in Hlist. rewrite Hmode in Hlist.
    destruct (decide (FreeList = FreeList)); [|contradiction].
    right. exists l1, l2, b. repeat split; assumption.
Qed.

Lemma freeList_takes_first_listed_fit_witness :
  let s := state_after (free_list_session 1) fresh_process in
  (4096 = nullptr /\ state_after (freeList 8) s = s
   /\ all_too_small (memory s) 8 (free_list s)) \/
  (exists l1 l2 b,
      free_list s = l1 ++ 4096 :: l2 /\ all_too_small (memory s) 8 l1 /\
      memory s !! 4096 = Some b /\ 8 <= Block.size b /\
      carries (state_after (freeList 8) s) 4096 8 true /\
      free_list (state_after (freeList 8) s) =
      list_remove 4096 (free_list s)
      ++ (if canSplit_sizes (Block.size b) 8 then [4096] else [])).
Proof.
  intros s.
  apply (freeList_takes_first_listed_fit 8 s 4096 (state_after (freeList 8) s)).
  - vm_compute. reflexivity.
  - vm_compute. reflexivity.
Defined.

Lemma freeList_scan_reaches l1 r l2 size s b :
  all_too_small (memory s) size l1 -> (forall x, x ∈ l1 -> x <> nullptr) ->
  r <> nullptr -> memory s !! r = Some b -> size <= Block.size b ->
  freeList_scan (l1 ++ r :: l2) size s = Done r s.
Proof.
  intros Hall Hnn Hr Hb Hsize. induction l1 as [|x l1 IH]; simpl.
  - rewrite (bind_Done_intro _ _ _ _ _ (load_Some _ _ _ Hr Hb)).
    rewrite bool_decide_eq_true_2 by exact Hsize. reflexivity.
  - destruct (Hall x) as (bx & Hbx & Hsmall); [apply elem_of_cons; left; reflexivity|].
    assert (Hx : x <> nullptr) by (apply Hnn, elem_of_cons; left; reflexivity).
    rewrite (bind_Done_intro _ _ _ _ _ (load_Some _ _ _ Hx Hbx)).
    rewrite bool_decide_eq_false_2 by lia.
    apply IH.
    + intros y Hy. apply Hall, elem_of_cons. right. exact Hy.
    + intros y Hy. apply Hnn, elem_of_cons. right. exact Hy.
Qed.

(** X8. In explicit-free-list mode the used flag of a listed block is
    never looked at: [alloc] returns the first entry of the free list that
    is large enough, also when its header is marked used. *)
Theorem alloc_free_list_ignores_used_flag fuel n s l1 l2 block b :
  searchMode s = FreeList ->
  free_list s = l1 ++ block :: l2 ->
  all_too_small (memory s) (align n) l1 -> (forall x, x ∈ l1 -> x <> nullptr) ->
  0 < block -> memory s !! block = Some b ->
  align n <= Block.size b ->
  exists s', alloc fuel n s = Done (data_of block) s' /\ carries s' block (align n) true.
Proof.
  intros Hmode Hlist Hall Hnn Hpos Hb Hsize.
  assert (Hblock : block <> nullptr) by (unfold nullptr; lia).
  set (s1 := with_free_list (list_remove block (free_list s)) s).
  destruct (listAllocate_returns block (align n) s1 b Hpos Hb) as (s' & Hs').
  exists s'. split; [|apply listAllocate_Done in Hs'; apply Hs'].
  assert (Hfind : findBlock fuel (align n) s = Done block s').
  { unfold findBlock, bind, get. rewrite Hmode. unfold freeList, bind, get.
    rewrite Hlist.
    rewrite (freeList_scan_reaches _ _ _ _ _ _ Hall Hnn Hblock Hb Hsize).
    destruct (decide (block <> nullptr)); [|contradiction].
    unfold modify. exact Hs'. }
  unfold alloc. rewrite (bind_Done_intro _ _ _ _ _ Hfind).
  destruct (decide (block <> nullptr)); [reflexivity|contradiction].
Qed.

Lemma alloc_free_list_ignores_used_flag_witness :
  let s := state_after (free_list_session 1) fresh_process in
  memory s !! 4096 = Some (Block.mk 8 true 4128) /\
  exists s', alloc 1 8 s = Done (data_of 4096) s' /\ carries s' 4096 (align 8) true.
Proof.
  intros s. split; [vm_compute; reflexivity|].
  apply (alloc_free_list_ignores_used_flag 1 8 s [] [] 4096 (Block.mk 8 true 4128)).
  - vm_compute. reflexivity.
  - vm_compute. reflexivity.
  - intros x Hx. apply elem_of_nil in Hx. contradiction.
  - intros x Hx. apply elem_of_nil in Hx. contradiction.
  - lia.
  - vm_compute. reflexivity.
  - vm_compute. discriminate.
Defined.

(** ** Segregated lists *)

(** X9. In segregated mode a request whose bucket index is negative or
    not below the number of entries of the bucket table is not rejected:
    [alloc] indexes the table with it before any search. This is the case
    of [alloc(0)], whose bucket is [-1], and of every size above 40. *)
Theorem segregated_alloc_outside_table fuel size s :
  searchMode s = SegregatedList ->
  getBucket (align size) < 0
  \/ Z.of_nat (length (segregatedLists s)) <= getBucket (align size) ->
  alloc fuel size s = Undefined (IndexOutOfBounds (getBucket (align size))).
Proof.
  intros Hmode Hout.
  unfold alloc, findBlock. unfold bind at 1. unfold bind at 1. unfold get at 1.
  rewrite Hmode. unfold segregatedFit. unfold bind at 1. unfold get at 1.
  unfold bind at 1. unfold array_get.
  destruct (decide (0 <= getBucket (align size))) as [Hpos|]; [|reflexivity].
  destruct Hout as [Hneg|Hbig]; [lia|].
  rewrite (proj2 (lookup_ge_None _ _)) by lia. reflexivity.
Qed.

Lemma segregated_alloc_outside_table_witness :
  getBucket (align 0) = -1 /\
  alloc 1 0 (state_after (init SegregatedList) fresh_process)
  = Undefined (IndexOutOfBounds (getBucket (align 0))).
Proof.
  split; [reflexivity|].
  apply (segregated_alloc_outside_table 1 0 (state_after (init SegregatedList) fresh_process)).
  - reflexivity.
  - left. vm_compute. reflexivity.
Defined.

(** X10. Buckets are isolated: in segregated mode, with [k] the bucket of
    the aligned size, [alloc] either returns a block that was already in
    the chain of bucket [k], leaving both tables and the break as they
    were, or, when every block of that chain is in use or too small,
    returns the block grown at the old break and makes it the tail of
    bucket [k] (and its head when the bucket was empty); the entries of
    the other buckets are never touched. *)
Theorem segregated_alloc_stays_in_bucket fuel size s h s' head l :
  searchMode s = SegregatedList ->
  segregatedLists s !! Z.to_nat (getBucket (align size)) = Some head ->
  chain (memory s) head l ->
  alloc fuel size s = Done h s' ->
  ((getHeader h ∈ l /\
    segregatedLists s' = segregatedLists s /\ segregatedTops s' = segregatedTops s /\
    program_break s' = program_break s) \/
   (all_skipped (memory s) (align size) l /\
    getHeader h = program_break s /\
    segregatedTops s' =
    <[Z.to_nat (getBucket (align size)) := getHeader h]> (segregatedTops s) /\
    segregatedLists s' =
    (if decide (head = nullptr)
     then <[Z.to_nat (getBucket (align size)) := getHeader h]> (segregatedLists s)
     else segregatedLists s))) /\
  (forall j, j <> Z.to_nat (getBucket (align size)) ->
             segregatedLists s' !! j = segregatedLists s !! j /\
             segregatedTops s' !! j = segregatedTops s !! j).
Proof.
  intros Hmode Hhead Hl H. unfold alloc in H.
  apply bind_Done in H. destruct H as (r & s1 & Hfind & H).
  assert (Hseg : segregatedFit fuel (align size) s = Done r s1).
  { unfold findBlock in Hfind. apply bind_Done in Hfind.
    destruct Hfind as (mode & s0 & Hget & Hfind).
    apply get_Done in Hget. destruct Hget as [-> ->].
    rewrite Hmode in Hfind. exact Hfind. }
  clear Hfind. unfold segregatedFit in Hseg.
  apply bind_Done in Hseg. destruct Hseg as (original & s0 & Hget & Hseg).
  apply get_Done in Hget. destruct Hget as [-> ->].
  apply bind_Done in Hseg. destruct Hseg as (head' & s0 & Hentry & Hseg).
  apply array_get_Done in Hentry. destruct Hentry as (-> & Hk & Hentry).
  rewrite Hhead in Hentry. injection Hentry as <-.
  apply bind_Done in Hseg. destruct Hseg as (? & s0 & Hmod & Hseg).
  apply modify_Done in Hmod. subst s0.
  apply bind_Done in Hseg. destruct Hseg as (r' & s2 & Hfirst & Hseg).
  apply bind_Done in Hseg. destruct Hseg as (? & s3 & Hmod & Hseg).
  apply modify_Done in Hmod. subst s3.
  apply ret_Done in Hseg. destruct Hseg as [-> ->].
  unfold firstFit in Hfirst. apply bind_Done in Hfirst.
  destruct Hfirst as (hs & s0 & Hget & Hfirst).
  apply get_Done in Hget. destruct Hget as [-> ->]. simpl in Hfirst.
  destruct (firstFit_loop_first_fit _ _ _ (with_heapStart head s) l _ _ Hl Hfirst)
    as [(-> & -> & Hall)|(l1 & l2 & b & -> & Hall & Hb & Hfit & Hrun)].
  - (* nothing fits in the bucket: the block is grown *)
    destruct (decide (nullptr <> nullptr)); [contradiction|].
    apply bind_Done in H. destruct H as (block & s2 & Hos & H).
    apply requestFromOS_Done in Hos.
    destruct Hos as (_ & _ & Hsame & [->|[-> _]]); [finished; contradiction|].
    unfold same_cursors in Hsame. simpl in Hsame.
    destruct Hsame as (_ & _ & Hm & _ & Hlists & Htops & _).
    apply bind_Done in H. destruct H as (? & s3 & Hst & H).
    apply store_Done in Hst. destruct Hst as [_ ->].
    apply bind_Done in H. destruct H as (? & s3 & Hst & H).
    apply store_Done in Hst. destruct Hst as [_ ->].
    apply bind_Done in H. destruct H as (mode & s3 & Hget & H).
    apply get_Done in Hget. destruct Hget as [-> ->]. simpl in H.
    rewrite Hm, Hmode in H.
    destruct (decide (SegregatedList = SegregatedList)); [|contradiction].
    apply bind_Done in H. destruct H as (? & s3 & Hbucket & H).
    apply ret_Done in H. destruct H as [-> ->]. rewrite getHeader_data_of.
    apply bind_Done in Hbucket. destruct Hbucket as (head' & s4 & Hentry & Hbucket).
    apply array_get_Done in Hentry. destruct Hentry as (-> & _ & Hentry).
    simpl in Hentry. rewrite Hlists, Hhead in Hentry. injection Hentry as <-.
    apply bind_Done in Hbucket. destruct Hbucket as (? & s4 & Hinit & Hbucket).
    apply bind_Done in Hbucket. destruct Hbucket as (tail & s5 & Htail & Hbucket).
    apply array_get_Done in Htail. destruct Htail as (-> & _ & _).
    apply bind_Done in Hbucket. destruct Hbucket as (? & s5 & Hlink & Hbucket).
    apply array_set_Done in Hbucket. subst s3.
    assert (Hs5 : segregatedLists s5 = segregatedLists s4 /\
                  segregatedTops s5 = segregatedTops s4).
    { destruct (decide (tail <> nullptr)).
      - apply store_Done in Hlink. destruct Hlink as [_ ->]. split; reflexivity.
      - apply ret_Done in Hlink. destruct Hlink as [_ ->]. split; reflexivity. }
    destruct Hs5 as [Hl5 Ht5].
    assert (Hs4 : segregatedTops s4 = segregatedTops s /\
                  segregatedLists s4 =
                  (if decide (head = nullptr)
                   then <[Z.to_nat (getBucket (align size)) := program_break s]>
                          (segregatedLists s)
                   else segregatedLists s)).
    { destruct (decide (head = nullptr)).
      - apply array_set_Done in Hinit. subst s4. simpl. rewrite Hlists, Htops.
        split; reflexivity.
      - apply ret_Done in Hinit. destruct Hinit as [_ ->]. simpl.
        rewrite Hlists, Htops. split; reflexivity. }
    destruct Hs4 as [Ht4 Hl4]. simpl. rewrite Hl5, Ht5, Ht4, Hl4.
    split.
    + right. split; [exact Hall|]. repeat split; reflexivity.
    + intros j Hj. rewrite list_lookup_insert_ne by congruence.
      split; [|reflexivity].
      destruct (decide (head = nullptr)); [|reflexivity].
      apply list_lookup_insert_ne. congruence.
  - (* a block of the bucket is reused *)
    apply listAllocate_Done in Hrun. destruct Hrun as (_ & Hr & Hsame & _).
    destruct (decide (r' <> nullptr)); [|contradiction].
    apply ret_Done in H. destruct H as [-> ->].
    unfold same_cursors in Hsame. simpl in Hsame.
    destruct Hsame as (_ & _ & _ & _ & Hlists & Htops & Hbreak & _).
    rewrite getHeader_data_of. simpl.
    split; [|intros j _; rewrite Hlists, Htops; split; reflexivity].
    left. split; [|repeat split; assumption].
    apply elem_of_app. right. apply elem_of_cons. left. reflexivity.
Qed.

Lemma segregated_alloc_stays_in_bucket_witness :
  let s := state_after (segregated_session 4) fresh_process in
  let s' := state_after (alloc 4 8) s in
  let h := data_of 4288 in
  let l := [4096; 4128; 4200] in
  ((getHeader h ∈ l /\
    segregatedLists s' = segregatedLists s /\ segregatedTops s' = segregatedTops s /\
    program_break s' = program_break s) \/
   (all_skipped (memory s) (align 8) l /\
    getHeader h = program_break s /\
    segregatedTops s' =
    <[Z.to_nat (getBucket (align 8)) := getHeader h]> (segregatedTops s) /\
    segregatedLists s' =
    (if decide (4096 = nullptr)
     then <[Z.to_nat (getBucket (align 8)) := getHeader h]> (segregatedLists s)
     else segregatedLists s))) /\
  (forall j, j <> Z.to_nat (getBucket (align 8)) ->
             segregatedLists s' !! j = segregatedLists s !! j /\
             segregatedTops s' !! j = segregatedTops s !! j).
Proof.
  intros s s' h l.
  apply (segregated_alloc_stays_in_bucket 4 8 s h s' 4096 l).
  - vm_compute. reflexivity.
  - vm_compute. reflexivity.
  - apply (chain_link _ 4096 (Block.mk 8 true 4128)); [discriminate|vm_compute; reflexivity|].
    apply (chain_link _ 4128 (Block.mk 8 true 4200));
      [discriminate|vm_compute; reflexivity|].
    apply (chain_link _ 4200 (Block.mk 8 true nullptr));
      [discriminate|vm_compute; reflexivity|].
    apply chain_end.
  - vm_compute. reflexivity.
Defined.

(** ** Traversal *)

(** X11. Outside segregated mode, the traversal with the recording
    callback finishes exactly when the [next] links from [heapStart] form a
    chain that ends in [nullptr] and is shorter than the fuel; it then
    reports the blocks of that chain in order and leaves the state as it
    was. *)
Theorem traverse_lists_the_chain fuel s seen s' :
  searchMode s <> SegregatedList ->
  traverse fuel record_block [] s = Done seen s' <->
  s' = s /\ chain (memory s) (heapStart s) seen /\ (length seen < fuel)%nat.
Proof.
  intros Hmode.
  assert (Htr : traverse fuel record_block [] s
                = visit_loop fuel record_block (heapStart s) [] s).
  { unfold traverse, bind, get.
    destruct (decide (searchMode s = SegregatedList)); [contradiction|reflexivity]. }
  rewrite Htr. split.
  - intros H. apply visit_loop_record_Done in H.
    destruct H as (-> & l & Hl & -> & Hlen). rewrite app_nil_l. repeat split; assumption.
  - intros (-> & Hl & Hlen).
    apply (visit_loop_record_chain fuel (heapStart s) [] s seen Hl Hlen).
Qed.

Lemma traverse_lists_the_chain_witness :
  let s := state_after (coalescing_session 4) fresh_process in
  traverse 4 record_block [] s = Done [4096; 4128; 4160] s <->
  s = s /\ chain (memory s) (heapStart s) [4096; 4128; 4160]
  /\ (length [4096; 4128; 4160] < 4)%nat.
Proof.
  intros s. apply (traverse_lists_the_chain 4 s [4096; 4128; 4160] s).
  vm_compute. discriminate.
Defined.

Lemma with_heapStart_same s : with_heapStart (heapStart s) s = s.
Proof. destruct s; reflexivity. Qed.

Lemma segregatedTraverse_from_record fuel heads :
  forall (i : nat) acc s rest ls,
    drop i (segregatedLists s) = heads ++ rest ->
    Forall2 (fun head l => chain (memory s) head l /\ (length l < fuel)%nat) heads ls ->
    segregatedTraverse_from fuel record_block (length heads) (Z.of_nat i) acc s
    = Done (acc ++ concat ls) s.
Proof.
  induction heads as [|head heads IH]; intros i acc s rest ls Hdrop Hall.
  - inversion Hall; subst. simpl. rewrite app_nil_r. reflexivity.
  - inversion Hall as [|? l ? ls' [Hl Hlen] Hall']; subst. simpl.
    unfold bind at 1. unfold get at 1.
    assert (Hentry : array_get segregatedLists (Z.of_nat i) s = Done head s).
    { unfold array_get. destruct (decide (0 <= Z.of_nat i)); [|lia].
      rewrite Nat2Z.id.
      assert (E : segregatedLists s !! i = Some head).
      { pose proof (lookup_drop (segregatedLists s) i 0) as Hd.
        rewrite Hdrop in Hd. simpl in Hd. rewrite Nat.add_0_r in Hd. symmetry. exact Hd. }
      rewrite E. reflexivity. }
    rewrite (bind_Done_intro _ _ _ _ _ Hentry).
    unfold bind at 1. unfold modify at 1.
    assert (Hvisit : visit fuel record_block acc (with_heapStart head s)
                     = Done (acc ++ l) (with_heapStart head s)).
    { unfold visit, bind, get. simpl heapStart.
      apply visit_loop_record_chain; assumption. }
    rewrite (bind_Done_intro _ _ _ _ _ Hvisit).
    unfold bind at 1. unfold modify at 1.
    change (with_heapStart (heapStart s) (with_heapStart head s))
      with (with_heapStart (heapStart s) s).
    rewrite with_heapStart_same.
    replace (Z.of_nat i + 1) with (Z.of_nat (S i)) by lia.
    rewrite (IH (S i) (acc ++ l) s rest ls').
    + rewrite <- app_assoc. reflexivity.
    + replace (S i) with (i + 1)%nat by lia.
      rewrite <- drop_drop, Hdrop. reflexivity.
    + exact Hall'.
Qed.

(** X12. In segregated mode the traversal reports the chains of the five
    buckets one after the other, from bucket 0 to bucket 4, and leaves
    the state, [heapStart] included, as it was. *)
Theorem segregated_traverse_concatenates_buckets fuel s ls :
  searchMode s = SegregatedList ->
  length (segregatedLists s) = bucket_count ->
  Forall2 (fun head l => chain (memory s) head l /\ (length l < fuel)%nat)
          (segregatedLists s) ls ->
  traverse fuel record_block [] s = Done (concat ls) s.
Proof.
  intros Hmode Hlen Hall. unfold traverse, bind, get. rewrite Hmode.
  destruct (decide (SegregatedList = SegregatedList)); [|contradiction].
  unfold segregatedTraverse. rewrite <- Hlen.
  apply (segregatedTraverse_from_record fuel (segregatedLists s) 0 [] s [] ls).
  - rewrite app_nil_r. reflexivity.
  - exact Hall.
Qed.

Lemma segregated_traverse_concatenates_buckets_witness :
  let s := state_after (segregated_session 4) fresh_process in
  traverse 4 record_block [] s
  = Done (concat [[4096; 4128; 4200]; [4160]; []; [4232]; []]) s.
Proof.
  intros s.
  apply (segregated_traverse_concatenates_buckets 4 s
           [[4096; 4128; 4200]; [4160]; []; [4232]; []]).
  - vm_compute. reflexivity.
  - vm_compute. reflexivity.
  - change (segregatedLists s) with [4096; 4160; 0; 4232; 0].
    apply Forall2_cons. split.
    { split; [|simpl; lia].
      apply (chain_link _ 4096 (Block.mk 8 true 4128));
        [discriminate|vm_compute; reflexivity|].
      apply (chain_link _ 4128 (Block.mk 8 true 4200));
        [discriminate|vm_compute; reflexivity|].
      apply (chain_link _ 4200 (Block.mk 8 true nullptr));
        [discriminate|vm_compute; reflexivity|].
      apply chain_end. }
    apply Forall2_cons. split.
    { split; [|simpl; lia].
      apply (chain_link _ 4160 (Block.mk 16 true nullptr));
        [discriminate|vm_compute; reflexivity|].
      apply chain_end. }
    apply Forall2_cons. split.
    { split; [apply chain_end|simpl; lia]. }
    apply Forall2_cons. split.
    { split; [|simpl; lia].
      apply (chain_link _ 4232 (Block.mk 32 true nullptr));
        [discriminate|vm_compute; reflexivity|].
      apply chain_end. }
    apply Forall2_cons. split.
    { split; [apply chain_end|simpl; lia]. }
    apply Forall2_nil. exact I.
Defined.

(** ** Growth of the main chain *)




(** ** Splitting *)

Lemma listAllocate_split_state block size s b s' :
  searchMode s <> SegregatedList ->
  memory s !! block = Some b ->
  canSplit_sizes (Block.size b) size = true ->
  block + allocSize size <> block ->
  listAllocate block size s = Done block s' ->
  memory s' !! block = Some (Block.mk size true (block + allocSize size)) /\
  memory s' !! (block + allocSize size)
  = Some (Block.mk (split_remainder (Block.size b) size) false (Block.next b)) /\
  (forall x, x <> block -> x <> block + allocSize size -> memory s' !! x = memory s !! x).
Proof.
  intros Hmode Hb Hcan Hne H. unfold listAllocate, canSplit in H.
  apply bind_Done in H. destruct H as (mode & s0 & Hget & H).
  apply get_Done in Hget. destruct Hget as [-> ->].
  destruct (decide (searchMode s <> SegregatedList)); [|contradiction].
  apply bind_Done in H. destruct H as (can & s0 & Hrun & H).
  apply bind_Done in Hrun. destruct Hrun as (b0 & s1 & Hload & Hret).
  apply load_Done in Hload. destruct Hload as (-> & _ & Hb0).
  apply ret_Done in Hret. destruct Hret as [-> ->].
  rewrite Hb in Hb0. injection Hb0 as <-. rewrite Hcan in H.
  unfold split in H.
  finished.
  all: rewrite Hb in *.
  all: repeat match goal with
         | H : Some _ = Some _ |- _ => injection H as <-
         | H : memory _ !! _ = Some _ |- _ =>
             rewrite !stored_lookup_ne in H by congruence
         end.
  all: rewrite ?Hb in *.
  all: repeat match goal with H : Some _ = Some _ |- _ => injection H as <- end.
  all: repeat split.
  all: try intros x Hx1 Hx2.
  all: repeat first
         [ rewrite stored_lookup_eq
         | rewrite stored_lookup_ne by congruence
         | progress change (memory (with_free_list ?l ?t)) with (memory t) ].
  all: rewrite ?Hb; try reflexivity.
Qed.




(** X15. Splitting and coalescing are not inverse to each other: when a
    block that was split is freed while its remainder is still free, the
    two are merged again, but the block ends up 24 bytes smaller than it
    was before the split, because the header of the remainder is not
    counted back in. *)
Theorem split_then_free_loses_a_header size s block b :
  searchMode s <> SegregatedList ->
  0 < block ->
  memory s !! block = Some b ->
  canSplit_sizes (Block.size b) size = true ->
  0 <= size -> size + 24 <= Block.size b -> Block.size b < 2 ^ 64 ->
  exists s1 s2,
    listAllocate block size s = Done block s1 /\
    free (data_of block) s1 = Done tt s2 /\
    memory s2 !! block
    = Some (Block.mk (Block.size b - (sizeof_Block - sizeof_data)) false (Block.next b)).
Proof.
  intros Hmode Hpos Hb Hcan H0 Hroom Hmax.
  assert (Hblock : block <> nullptr) by (unfold nullptr; lia).
  assert (Ha : allocSize size = size + 24).
  { unfold allocSize, sizeof_Block, sizeof_data. rewrite wrap_small by lia. lia. }
  assert (HRb : block + allocSize size <> block) by lia.
  assert (HRn : block + allocSize size <> nullptr) by (unfold nullptr; lia).
  destruct (listAllocate_returns block size s b Hpos Hb) as (s1 & Hrun).
  destruct (listAllocate_split_state block size s b s1 Hmode Hb Hcan HRb Hrun)
    as (Hb1 & Hrem & _).
  pose proof (listAllocate_Done _ _ _ _ _ Hrun) as (_ & _ & Hsame & _).
  destruct Hsame as (_ & _ & Hmode1 & _).
  set (b1 := Block.mk size true (block + allocSize size)) in *.
  set (n1 := Block.mk (split_remainder (Block.size b) size) false (Block.next b)) in *.
  pose proof (free_run (data_of block) s1 b1 n1) as Hfree.
  rewrite getHeader_data_of in Hfree.
  assert (Hm : searchMode s1 <> SegregatedList) by congruence.
  specialize (Hfree Hm Hblock Hb1 HRn HRb Hrem eq_refl).
  exists s1, (freed block b1 n1 s1). split; [exact Hrun|]. split; [exact Hfree|].
  rewrite (freed_header _ _ _ _ Hb1). simpl. f_equal. f_equal.
  unfold split_remainder. rewrite Ha.
  rewrite (wrap_small (Block.size b - (size + 24))) by lia.
  rewrite wrap_small by lia. unfold sizeof_Block, sizeof_data. lia.
Qed.

Lemma split_then_free_loses_a_header_witness :
  let s := state_after (free (data_of 4224))
             (state_after (first_fit_session 6) fresh_process) in
  memory s !! 4224 = Some (Block.mk 104 false nullptr) /\
  exists s1 s2,
    listAllocate 4224 8 s = Done 4224 s1 /\
    free (data_of 4224) s1 = Done tt s2 /\
    memory s2 !! 4224
    = Some (Block.mk (Block.size (Block.mk 104 false nullptr)
                      - (sizeof_Block - sizeof_data)) false
                     (Block.next (Block.mk 104 false nullptr))).
Proof.
  intros s. split; [vm_compute; reflexivity|].
  apply (split_then_free_loses_a_header 8 s 4224 (Block.mk 104 false nullptr)).
  - vm_compute. discriminate.
  - lia.
  - vm_compute. reflexivity.
  - reflexivity.
  - lia.
  - simpl. lia.
  - simpl. lia.
Defined.

(** ** Sizes stay multiples of the word *)
















(** ** [init] and [resetHeap] *)


Lemma init_same_mode_empty_chain s :
  heapStart s = nullptr -> init (searchMode s) s = Done tt s.
Proof.
  intros E. unfold init, resetHeap, bind, modify, get. simpl. rewrite E.
  destruct (decide (nullptr = nullptr)); [|contradiction].
  unfold ret. destruct s; reflexivity.
Qed.

Lemma alloc_segregated_mode fuel size s h s' :
  searchMode s = SegregatedList ->
  alloc fuel size s = Done h s' ->
  searchMode s' = SegregatedList.
Proof.
  intros Hmode H. pose proof H as Hmodel. unfold alloc in H.
  apply bind_Done in H. destruct H as (r & s1 & Hfind & H).
  apply findBlock_Done in Hfind. destruct Hfind as (Hsame & _).
  unfold same_cursors in Hsame. simpl in Hsame. destruct Hsame as (_ & _ & Hm & _).
  destruct (decide (r <> nullptr)); [finished; congruence|].
  apply bind_Done in H. destruct H as (block & s2 & Hos & H).
  apply requestFromOS_Done in Hos. destruct Hos as (_ & _ & Hsame & _).
  unfold same_cursors in Hsame. simpl in Hsame. destruct Hsame as (_ & _ & Hm2 & _).
  finished; simpl in *; congruence.
Qed.

Lemma free_mode data s u s' :
  free data s = Done u s' -> searchMode s' = searchMode s.
Proof.
  unfold free, canCoalesce. intros H.
  repeat (finished_step; try match goal with
    | H : coalesce _ _ = Done _ _ |- _ =>
        apply coalesce_Done in H; destruct H as (-> & ? & ? & ?)
    end); simpl; congruence.
Qed.

(** X18. A segregated session cannot be reset: in segregated mode the
    main chain stays empty over [alloc] and [free], so a later
    [init(SegregatedList)] changes nothing at all. The break is not rolled
    back and the buckets keep their blocks. *)
Theorem init_is_void_in_segregated_sessions s s' :
  searchMode s = SegregatedList ->
  heapStart s = nullptr ->
  (exists fuel size h, alloc fuel size s = Done h s')
  \/ (exists data, free data s = Done tt s') ->
  heapStart s' = nullptr /\ init SegregatedList s' = Done tt s'.
Proof.
  intros Hmode Hhs Hop.
  assert (Hs' : heapStart s' = nullptr /\ searchMode s' = SegregatedList).
  { destruct Hop as [(fuel & size & h & H)|(data & H)].
    - split; [|eapply alloc_segregated_mode; eassumption].
      rewrite <- Hhs. eapply alloc_segregated_heapStart; eassumption.
    - split; [rewrite <- Hhs; eapply free_Done_heapStart; exact H|].
      rewrite <- Hmode. eapply free_mode. exact H. }
  destruct Hs' as [Hhs' Hmode']. split; [exact Hhs'|].
  rewrite <- Hmode'. apply init_same_mode_empty_chain. exact Hhs'.
Qed.

Lemma init_is_void_in_segregated_sessions_witness :
  let s := state_after (segregated_session 4) fresh_process in
  let s' := state_after (alloc 4 16) s in
  heapStart s' = nullptr /\ init SegregatedList s' = Done tt s'.
Proof.
  intros s s'. apply (init_is_void_in_segregated_sessions s s').
  - vm_compute. reflexivity.
  - vm_compute. reflexivity.
  - left. exists 4%nat, 16, (data_of 4288). vm_compute. reflexivity.
Defined.

(** ** Coalescing and the free list *)






(** ** The backing store *)

Lemma to_intptr_small x : 0 <= x < 2 ^ 63 -> to_intptr x = x.
Proof.
  intros Hx. unfold to_intptr. rewrite Z.mod_small by lia. lia.
Qed.

(** X20. For a size below 2^63 - 24, [requestFromOS] claims the size and
    the 24 bytes of a header: when the break can rise by that much it
    returns the old break and moves the break up by [size + 24]; when it
    cannot, it returns [nullptr] and the break stays. Nothing but the
    break changes. *)
Theorem requestFromOS_claims_header_and_payload size s :
  0 <= size < 2 ^ 63 - 24 ->
  0 < program_break s ->
  exists s',
    requestFromOS size s
    = Done (if decide (program_break s + (size + 24) <= break_limit s)
            then program_break s else nullptr) s' /\
    program_break s' =
    (if decide (program_break s + (size + 24) <= break_limit s)
     then program_break s + (size + 24) else program_break s) /\
    memory s' = memory s /\ free_list s' = free_list s /\
    same_cursors (with_program_break (program_break s') s) s'.
Proof.
  intros Hsize Hpos.
  assert (Hinc : to_intptr (allocSize size) = size + 24).
  { unfold allocSize, sizeof_Block, sizeof_data. rewrite wrap_small by lia.
    rewrite to_intptr_small by lia. lia. }
  unfold requestFromOS, bind, sbrk. rewrite Hinc.
  destruct (decide (0 <= 0 \/ program_break s + 0 <= break_limit s)) as [_|n];
    [|exfalso; apply n; left; lia].
  simpl. rewrite Z.add_0_r.
  destruct (decide (program_break s + (size + 24) <= break_limit s)) as [Hroom|Hfull].
  - destruct (decide (size + 24 <= 0 \/ program_break s + (size + 24) <= break_limit s))
      as [_|n]; [|exfalso; apply n; right; exact Hroom].
    destruct (decide (program_break s = -1)); [lia|].
    eexists. split; [reflexivity|]. simpl. repeat split.
  - destruct (decide (size + 24 <= 0 \/ program_break s + (size + 24) <= break_limit s))
      as [[Hc|Hc]|_]; [lia|contradiction|].
    destruct (decide (-1 = -1)); [|contradiction].
    eexists. split; [reflexivity|]. simpl. repeat split.
Qed.

Lemma requestFromOS_claims_header_and_payload_witness :
  exists s',
    requestFromOS 8 fresh_process
    = Done (if decide (program_break fresh_process + (8 + 24) <= break_limit fresh_process)
            then program_break fresh_process else nullptr) s' /\
    program_break s' =
    (if decide (program_break fresh_process + (8 + 24) <= break_limit fresh_process)
     then program_break fresh_process + (8 + 24) else program_break fresh_process) /\
    memory s' = memory fresh_process /\ free_list s' = free_list fresh_process /\
    same_cursors (with_program_break (program_break s') fresh_process) s'.
Proof.
  apply (requestFromOS_claims_header_and_payload 8 fresh_process).
  - lia.
  - vm_compute. reflexivity.
Defined.

(** ** Next-fit *)

Lemma nextFit_loop_first fuel size start s todo :
  forall block r s',
    path (wraps_to (memory s) (heapStart s)) block todo start ->
    start ∉ todo ->
    nextFit_loop fuel size start block s = Done r s' ->
    (r = nullptr /\ s' = s /\ all_skipped (memory s) size (block :: todo)) \/
    (exists pre post b,
        block :: todo = pre ++ r :: post /\ all_skipped (memory s) size pre /\
        memory s !! r = Some b /\ skipped size b = false /\
        listAllocate r size (with_searchStart r s) = Done r s').
Proof.
  revert fuel. induction todo as [|y todo IH]; intros fuel block r s' Hpath Hstart H.
  - destruct fuel; [discriminate|]. simpl in Hpath.
    destruct Hpath as (Hpos & b & Hb & Hnext).
    assert (Hblock : block <> nullptr) by (unfold nullptr; lia).
    simpl in H. destruct (decide (block = nullptr)); [contradiction|].
    rewrite (bind_Done_intro _ _ _ _ _ (load_Some _ _ _ Hblock Hb)) in H.
    fold (skipped size b) in H. destruct (skipped size b) eqn:Hskip.
    + apply bind_Done in H. destruct H as (next & s0 & Hstep & H).
      assert (Hs0 : s0 = s /\ next = start).
      { destruct (decide (Block.next b = nullptr)).
        - apply get_Done in Hstep. destruct Hstep as [-> ->]. split; [reflexivity|].
          symmetry. exact Hnext.
        - apply ret_Done in Hstep. destruct Hstep as [-> ->]. split; [reflexivity|].
          symmetry. exact Hnext. }
      destruct Hs0 as [-> ->]. destruct (decide (start = start)); [|contradiction].
      apply ret_Done in H. destruct H as [-> ->]. left.
      split; [reflexivity|]. split; [reflexivity|].
      intros z Hz. apply elem_of_cons in Hz. destruct Hz as [->|Hz].
      * exists b. split; assumption.
      * apply elem_of_nil in Hz. contradiction.
    + apply bind_Done in H. destruct H as (? & s0 & Hmod & H).
      apply modify_Done in Hmod. subst s0.
      pose proof (listAllocate_Done _ _ _ _ _ H) as (-> & _).
      right. exists [], [], b. split; [reflexivity|].
      split; [|repeat split; assumption].
      intros z Hz. apply elem_of_nil in Hz. contradiction.
  - destruct fuel; [discriminate|]. simpl in Hpath.
    destruct Hpath as [(Hpos & b & Hb & Hnext) Hrest].
    assert (Hblock : block <> nullptr) by (unfold nullptr; lia).
    apply not_elem_of_cons in Hstart. destruct Hstart as [Hy Hstart].
    simpl in H. destruct (decide (block = nullptr)); [contradiction|].
    rewrite (bind_Done_intro _ _ _ _ _ (load_Some _ _ _ Hblock Hb)) in H.
    fold (skipped size b) in H. destruct (skipped size b) eqn:Hskip.
    + apply bind_Done in H. destruct H as (next & s0 & Hstep & H).
      assert (Hs0 : s0 = s /\ next = y).
      { destruct (decide (Block.next b = nullptr)).
        - apply get_Done in Hstep. destruct Hstep as [-> ->]. split; [reflexivity|].
          symmetry. exact Hnext.
        - apply ret_Done in Hstep. destruct Hstep as [-> ->]. split; [reflexivity|].
          symmetry. exact Hnext. }
      destruct Hs0 as [-> ->]. destruct (decide (y = start)); [congruence|].
      assert (Hbs : exists bx, memory s !! block = Some bx /\ skipped size bx = true)
        by (exists b; split; assumption).
      destruct (IH _ _ _ _ Hrest Hstart H)
        as [(-> & -> & Hall)|(pre & post & br & E & Hall & Hbr & Hfit & Hrun)].
      * left. split; [reflexivity|]. split; [reflexivity|].
        intros z Hz. apply elem_of_cons in Hz. destruct Hz as [->|Hz]; [exact Hbs|].
        apply Hall. exact Hz.
      * right. exists (block :: pre), post, br. split; [simpl; rewrite E; reflexivity|].
        split; [|repeat split; assumption].
        intros z Hz. apply elem_of_cons in Hz. destruct Hz as [->|Hz]; [exact Hbs|].
        apply Hall. exact Hz.
    + apply bind_Done in H. destruct H as (? & s0 & Hmod & H).
      apply modify_Done in Hmod. subst s0.
      pose proof (listAllocate_Done _ _ _ _ _ H) as (-> & _).
      right. exists [], (y :: todo), b. split; [reflexivity|].
      split; [|repeat split; assumption].
      intros z Hz. apply elem_of_nil in Hz. contradiction.
Qed.

(** X21. Next-fit takes the first block that is free and large enough in
    the order of its circular scan: from the cursor to the tail of the
    chain and then from the head of the chain to the block before the
    cursor. When it returns a block, every block before it in that order
    was in use or too small, and the cursor moves to the block; when it
    returns [nullptr], every block of the chain was in use or too small. *)
Theorem nextFit_takes_first_fit_from_cursor fuel size s l1 l2 r s' :
  chain (memory s) (heapStart s) (l1 ++ cursor_of s :: l2) ->
  (forall x, x ∈ l1 ++ cursor_of s :: l2 -> 0 < x) ->
  nextFit fuel size s = Done r s' ->
  (r = nullptr /\ s' = with_searchStart (cursor_of s) s /\
   all_skipped (memory s) size (cursor_of s :: l2 ++ l1)) \/
  (exists pre post b,
      cursor_of s :: l2 ++ l1 = pre ++ r :: post /\
      all_skipped (memory s) size pre /\
      memory s !! r = Some b /\ Block.used b = false /\ size <= Block.size b /\
      searchStart s' = r /\ carries s' r size true).
Proof.
  intros Hchain Hpos H.
  pose proof (chain_NoDup _ _ _ Hchain) as Hnodup.
  pose proof (chain_cycle _ _ _ _ _ Hchain Hpos) as Hcycle.
  assert (Hstart : cursor_of s ∉ l2 ++ l1).
  { apply NoDup_app in Hnodup. destruct Hnodup as (_ & Hdisj & Hnd2).
    apply NoDup_cons in Hnd2. destruct Hnd2 as [Hn2 _].
    intros Hc. apply elem_of_app in Hc. destruct Hc as [Hc|Hc]; [contradiction|].
    apply (Hdisj _ Hc). apply elem_of_cons. left. reflexivity. }
  unfold nextFit in H.
  apply bind_Done in H. destruct H as (cursor & s0 & Hget & H).
  apply get_Done in Hget. destruct Hget as [-> ->].
  apply bind_Done in H. destruct H as (? & s0 & Hprep & H).
  assert (Hs0 : s0 = with_searchStart (cursor_of s) s).
  { unfold cursor_of. destruct (decide (searchStart s = nullptr)).
    - finished. reflexivity.
    - apply ret_Done in Hprep. destruct Hprep as [_ ->]. destruct s; reflexivity. }
  subst s0. apply bind_Done in H. destruct H as (start & s0 & Hget & H).
  apply get_Done in Hget. destruct Hget as [-> ->]. simpl searchStart in H.
  destruct (nextFit_loop_first fuel size (cursor_of s) (with_searchStart (cursor_of s) s)
              (l2 ++ l1) (cursor_of s) r s' Hcycle Hstart H)
    as [(-> & -> & Hall)|(pre & post & b & E & Hall & Hb & Hfit & Hrun)].
  - left. repeat split. exact Hall.
  - right. exists pre, post, b. apply skipped_false in Hfit. destruct Hfit as [Hfree Hsize].
    apply listAllocate_Done in Hrun. destruct Hrun as (_ & _ & Hsame & Hcar).
    destruct Hsame as (_ & _ & _ & Hcur & _). simpl in Hcur.
    repeat split; assumption.
Qed.

Lemma nextFit_takes_first_fit_from_cursor_witness :
  let s := state_after (alloc 8 16) (state_after (next_fit_session 8) fresh_process) in
  let r := 4232 in
  let s' := state_after (nextFit 8 16) s in
  cursor_of s = 4192 /\
  ((r = nullptr /\ s' = with_searchStart (cursor_of s) s /\
    all_skipped (memory s) 16 (cursor_of s :: [4232] ++ [4096; 4128; 4160])) \/
   (exists pre post b,
       cursor_of s :: [4232] ++ [4096; 4128; 4160] = pre ++ r :: post /\
       all_skipped (memory s) 16 pre /\
       memory s !! r = Some b /\ Block.used b = false /\ 16 <= Block.size b /\
       searchStart s' = r /\ carries s' r 16 true)).
Proof.
  intros s r s'. split; [vm_compute; reflexivity|].
  apply (nextFit_takes_first_fit_from_cursor 8 16 s [4096; 4128; 4160] [4232] r s').
  - change (cursor_of s) with 4192. change (heapStart s) with 4096. simpl.
    apply (chain_link _ 4096 (Block.mk 8 true 4128)); [discriminate|vm_compute; reflexivity|].
    apply (chain_link _ 4128 (Block.mk 8 true 4160)); [discriminate|vm_compute; reflexivity|].
    apply (chain_link _ 4160 (Block.mk 8 true 4192)); [discriminate|vm_compute; reflexivity|].
    apply (chain_link _ 4192 (Block.mk 16 true 4232)); [discriminate|vm_compute; reflexivity|].
    apply (chain_link _ 4232 (Block.mk 16 false nullptr));
      [discriminate|vm_compute; reflexivity|].
    apply chain_end.
  - change (cursor_of s) with 4192. simpl. intros x Hx.
    repeat (apply elem_of_cons in Hx; destruct Hx as [->|Hx]; [lia|]).
    apply elem_of_nil in Hx. contradiction.
  - vm_compute. reflexivity.
Defined.

(** ** Rounding *)

(** X22. Rounding wastes less than a word and nothing on a multiple of
    the word: for every [x] up to [size_max - 7], [align x] is below
    [x + 8], and it is [x] itself exactly when [x] is a multiple of 8. *)
Theorem align_slack_below_a_word (x : Z) (Hx : 0 <= x <= size_max - 7) :
  align x < x + sizeof_word /\ (align x = x <-> x mod sizeof_word = 0).
Proof.
  unfold size_max, sizeof_word in *.
  assert (Hlt : align x < x + 8).
  { rewrite align_in_range by lia.
    pose proof (Z.div_mod (x + 7) 8 ltac:(lia)) as Hd.
    pose proof (Z.mod_pos_bound (x + 7) 8 ltac:(lia)) as Hm. lia. }
  split; [exact Hlt|]. split.
  - intros E. rewrite <- E. apply align_multiple.
  - intros Hm. apply align_fixes_multiples; [lia|exact Hm].
Qed.

Lemma align_slack_below_a_word_witness :
  align 13 < 13 + sizeof_word /\ (align 13 = 13 <-> 13 mod sizeof_word = 0).
Proof.
  apply (align_slack_below_a_word 13). unfold size_max. lia.
Defined.

(** ** What [printBlocks] prints *)

Lemma visit_loop_print_chain fuel p out s l :
  chain (memory s) p l -> (length l < fuel)%nat ->
  visit_loop fuel print_block p out s = Done (out ++ map (printed (memory s)) l) s.
Proof.
  intros Hl. revert fuel out. induction Hl as [|p b l Hp Hb Hl IH]; intros fuel out Hlen.
  - destruct fuel; [simpl in Hlen; lia|]. simpl.
    destruct (decide (nullptr = nullptr)); [|contradiction].
    rewrite app_nil_r. reflexivity.
  - destruct fuel; [simpl in Hlen; lia|]. simpl.
    destruct (decide (p = nullptr)); [contradiction|].
    assert (Hprint : print_block p out s
                     = Done (out ++ [(Block.size b, Block.used b)]) s).
    { unfold print_block. rewrite (bind_Done_intro _ _ _ _ _ (load_Some _ _ _ Hp Hb)).
      reflexivity. }
    rewrite (bind_Done_intro _ _ _ _ _ Hprint).
    rewrite (bind_Done_intro _ _ _ _ _ (load_Some _ _ _ Hp Hb)).
    rewrite IH by (simpl in Hlen; lia).
    rewrite <- app_assoc. unfold printed at 2. rewrite Hb. reflexivity.
Qed.

(** X23. Outside segregated mode, on a chain that ends in [nullptr] and is
    shorter than the fuel, the traversal with the callback of
    [printBlocks] reports the size and the used flag of every block of the
    chain, in the order of the chain, and leaves the state as it was. *)
Theorem printBlocks_reports_the_chain fuel s l :
  searchMode s <> SegregatedList ->
  chain (memory s) (heapStart s) l -> (length l < fuel)%nat ->
  traverse fuel print_block [] s = Done (map (printed (memory s)) l) s.
Proof.
  intros Hmode Hl Hlen. unfold traverse, bind, get.
  destruct (decide (searchMode s = SegregatedList)); [contradiction|].
  unfold visit, bind, get.
  apply (visit_loop_print_chain fuel (heapStart s) [] s l Hl Hlen).
Qed.

Lemma printBlocks_reports_the_chain_witness :
  let s := state_after (first_fit_session 6) fresh_process in
  map (printed (memory s)) [4096; 4128; 4160; 4224; 4256]
  = [(8, true); (8, true); (16, true); (8, true); (96, false)] /\
  traverse 6 print_block [] s
  = Done (map (printed (memory s)) [4096; 4128; 4160; 4224; 4256]) s.
Proof.
  intros s. split; [vm_compute; reflexivity|].
  apply (printBlocks_reports_the_chain 6 s [4096; 4128; 4160; 4224; 4256]).
  - vm_compute. discriminate.
  - change (heapStart s) with 4096.
    apply (chain_link _ 4096 (Block.mk 8 true 4128)); [discriminate|vm_compute; reflexivity|].
    apply (chain_link _ 4128 (Block.mk 8 true 4160)); [discriminate|vm_compute; reflexivity|].
    apply (chain_link _ 4160 (Block.mk 16 true 4224)); [discriminate|vm_compute; reflexivity|].
    apply (chain_link _ 4224 (Block.mk 8 true 4256)); [discriminate|vm_compute; reflexivity|].
    apply (chain_link _ 4256 (Block.mk 96 false nullptr));
      [discriminate|vm_compute; reflexivity|].
    apply chain_end.
  - simpl. lia.
Defined.

(** * Properties of the mark-sweep collector *)

Import MarkSweep.

Section CollectorFacts.

Variable read_word : Z -> Z.

Lemma scan_holds ti from count k :
  k ∈ scan read_word ti from count <-> holds read_word ti from count k.
Proof.
  unfold scan, holds. rewrite list_elem_of_filter, list_elem_of_fmap. split.
  - intros [Hk (a & -> & Ha)]. split; [exact Hk|].
    apply elem_of_seqZ in Ha. exists (a - from).
    split; [lia|f_equal; lia].
  - intros [Hk (i & Hi & <-)]. split; [exact Hk|].
    exists (from + i). split; [reflexivity|]. apply elem_of_seqZ. lia.
Qed.

Lemma same_objects_keys ti0 ti k :
  same_objects ti0 ti -> is_Some (ti !! k) <-> is_Some (ti0 !! k).
Proof.
  intros H. rewrite <- (fmap_is_Some size (ti !! k)), <- (fmap_is_Some size (ti0 !! k)).
  rewrite (H k). reflexivity.
Qed.

Lemma scan_same_objects ti0 ti from count :
  same_objects ti0 ti ->
  scan read_word ti from count = scan read_word ti0 from count.
Proof.
  intros H. unfold scan. apply list_filter_iff. intros a.
  apply same_objects_keys, H.
Qed.

Lemma same_objects_refl ti : same_objects ti ti.
Proof. intros k. reflexivity. Qed.

Lemma same_objects_insert ti0 ti o h b :
  same_objects ti0 ti -> ti !! o = Some h ->
  same_objects ti0 (<[o := mkHeader b (size h)]> ti).
Proof.
  intros H Ho k. destruct (decide (k = o)) as [->|Hne].
  - rewrite lookup_insert_eq. rewrite <- (H o), Ho. reflexivity.
  - rewrite lookup_insert_ne by congruence. apply H.
Qed.

Lemma same_objects_header ti0 ti o h :
  same_objects ti0 ti -> ti !! o = Some h ->
  exists h0, ti0 !! o = Some h0 /\ size h0 = size h.
Proof.
  intros H Ho. specialize (H o). rewrite Ho in H.
  destruct (ti0 !! o) as [h0|]; [|discriminate].
  exists h0. split; [reflexivity|]. injection H. congruence.
Qed.

Lemma pending_insert ti0 ti o h :
  ti !! o = Some h -> marked h = false ->
  pending read_word ti0 ti
  = (S (length (scan read_word ti0 o (size h)))
     + pending read_word ti0 (<[o := mkHeader true (size h)]> ti))%nat.
Proof.
  intros Ho Hm. unfold pending.
  rewrite <- (insert_delete_id ti o h) at 1 by exact Ho.
  rewrite <- (insert_delete_eq ti o (mkHeader true (size h))).
  rewrite !map_to_list_insert by apply lookup_delete_eq.
  cbn [sum_list_with fst snd marked size]. rewrite Hm. lia.
Qed.

Lemma sum_list_with_le {A} (f g : A -> nat) l :
  (forall x, (f x <= g x)%nat) -> (sum_list_with f l <= sum_list_with g l)%nat.
Proof.
  intros H. induction l as [|x l IH]; cbn [sum_list_with]; [lia|].
  specialize (H x). lia.
Qed.

Lemma pending_budget rsp stackBegin ti :
  (length (reverse (getRoots read_word rsp stackBegin ti))
   + pending read_word ti ti < mark_budget read_word rsp stackBegin ti)%nat.
Proof.
  unfold mark_budget, pending. rewrite length_reverse.
  apply Nat.lt_succ_r, Nat.add_le_mono_l, sum_list_with_le.
  intros [k h]. cbn [fst snd]. destruct (marked h); lia.
Qed.

Lemma is_marked_insert_ne ti o h k :
  k <> o -> is_marked (<[o := h]> ti) k <-> is_marked ti k.
Proof. intros Hne. unfold is_marked. rewrite lookup_insert_ne by congruence. reflexivity. Qed.

Lemma is_marked_insert_eq ti o sz : is_marked (<[o := mkHeader true sz]> ti) o.
Proof. unfold is_marked. rewrite lookup_insert_eq. reflexivity. Qed.

Lemma is_marked_header ti k :
  is_marked ti k <-> exists h, ti !! k = Some h /\ marked h = true.
Proof.
  unfold is_marked. split.
  - destruct (ti !! k) as [h|]; [|discriminate]. intros H. exists h.
    split; [reflexivity|]. injection H. congruence.
  - intros (h & -> & Hm). cbn. rewrite Hm. reflexivity.
Qed.

(** The loop of [mark] never throws and ends once the fuel exceeds the
    pending work. *)
Lemma mark_loop_finishes ti0 fuel :
  forall wl ti,
    same_objects ti0 ti ->
    Forall (fun k => is_Some (ti !! k)) wl ->
    (length wl + pending read_word ti0 ti < fuel)%nat ->
    exists ti', mark_loop read_word fuel wl ti = Finished ti'.
Proof.
  induction fuel as [|fuel IH]; intros wl ti Hs Hwl Hfuel; [lia|].
  destruct wl as [|o wl]; cbn [mark_loop]; [eexists; reflexivity|].
  apply Forall_cons in Hwl as [[h Ho] Hwl]. rewrite Ho.
  cbn [length] in Hfuel.
  destruct (marked h) eqn:Hm.
  - apply IH; [exact Hs|exact Hwl|lia].
  - unfold getPointers. rewrite lookup_insert_eq. cbn [size].
    pose proof (same_objects_insert ti0 ti o h true Hs Ho) as Hs1.
    apply IH; [exact Hs1| |].
    + apply Forall_app. split.
      * apply Forall_reverse, Forall_forall. intros k Hk.
        apply list_elem_of_filter in Hk as [Hk _]. exact Hk.
      * eapply Forall_impl; [exact Hwl|]. intros k Hk. cbv beta in *.
        apply lookup_insert_is_Some. destruct (decide (o = k)); [left; assumption|right].
        split; assumption.
    + rewrite length_app, length_reverse, (scan_same_objects ti0) by exact Hs1.
      rewrite (pending_insert ti0 ti o h Ho Hm) in Hfuel. lia.
Qed.

(** What the loop of [mark] has done once it has finished. *)
Lemma mark_loop_marks ti0 fuel :
  forall wl ti ti',
    same_objects ti0 ti ->
    mark_loop read_word fuel wl ti = Finished ti' ->
    same_objects ti0 ti' /\
    (forall k, is_marked ti k -> is_marked ti' k) /\
    (forall k, is_marked ti' k ->
       is_marked ti k \/ exists w, w ∈ wl /\ rtc (points_to read_word ti0) w k) /\
    (forall w, w ∈ wl -> is_marked ti' w) /\
    ((forall a b, is_marked ti a -> points_to read_word ti0 a b ->
        is_marked ti b \/ b ∈ wl) ->
     forall a b, is_marked ti' a -> points_to read_word ti0 a b -> is_marked ti' b).
Proof.
  induction fuel as [|fuel IH]; intros wl ti ti' Hs Hrun; [discriminate|].
  destruct wl as [|o wl]; cbn [mark_loop] in Hrun.
  { injection Hrun as <-. split; [exact Hs|]. split; [tauto|]. split; [tauto|].
    split; [intros w Hw; apply elem_of_nil in Hw; contradiction|].
    intros Hc a b Ha Hab. destruct (Hc a b Ha Hab) as [H|H]; [exact H|].
    apply elem_of_nil in H. contradiction. }
  destruct (ti !! o) as [h|] eqn:Ho; [|discriminate].
  destruct (marked h) eqn:Hm.
  - destruct (IH wl ti ti' Hs Hrun) as (Hs' & Hmono & Hsound & Hwl & Hclosed).
    assert (Hmo : is_marked ti o) by (apply is_marked_header; eauto).
    split; [exact Hs'|]. split; [exact Hmono|]. split; [|split].
    + intros k Hk. destruct (Hsound k Hk) as [H|(w & Hw & Hwk)]; [left; exact H|].
      right. exists w. split; [apply elem_of_cons; right; exact Hw|exact Hwk].
    + intros w Hw. apply elem_of_cons in Hw as [->|Hw]; [apply Hmono, Hmo|apply Hwl, Hw].
    + intros Hc. apply Hclosed. intros a b Ha Hab.
      destruct (Hc a b Ha Hab) as [H|H]; [left; exact H|].
      apply elem_of_cons in H as [->|H]; [left; exact Hmo|right; exact H].
  - unfold getPointers in Hrun. rewrite lookup_insert_eq in Hrun. cbn [size] in Hrun.
    pose proof (same_objects_insert ti0 ti o h true Hs Ho) as Hs1.
    rewrite (scan_same_objects ti0) in Hrun by exact Hs1.
    destruct (IH _ _ ti' Hs1 Hrun) as (Hs' & Hmono & Hsound & Hwl & Hclosed).
    destruct (same_objects_header ti0 ti o h Hs Ho) as (h0 & Ho0 & Hsize).
    assert (Hstep : forall k, is_marked ti k -> is_marked (<[o := mkHeader true (size h)]> ti) k).
    { intros k Hk. destruct (decide (k = o)) as [->|Hne].
      - apply is_marked_insert_eq.
      - apply is_marked_insert_ne; assumption. }
    assert (Hptr : forall b, b ∈ scan read_word ti0 o (size h) <-> points_to read_word ti0 o b).
    { intros b. rewrite scan_holds. unfold points_to. split.
      - intros H. exists h0. rewrite Hsize. split; [exact Ho0|exact H].
      - intros (h1 & Ho1 & H). rewrite Ho0 in Ho1. injection Ho1 as <-.
        rewrite <- Hsize. exact H. }
    split; [exact Hs'|]. split; [|split; [|split]].
    + intros k Hk. apply Hmono, Hstep, Hk.
    + intros k Hk. destruct (Hsound k Hk) as [H|(w & Hw & Hwk)].
      * destruct (decide (k = o)) as [->|Hne].
        -- right. exists o. split; [apply elem_of_cons; left; reflexivity|apply rtc_refl].
        -- left. apply (is_marked_insert_ne ti o _ k Hne) in H. exact H.
      * right. apply elem_of_app in Hw as [Hw|Hw].
        -- exists o. split; [apply elem_of_cons; left; reflexivity|].
           rewrite elem_of_reverse in Hw. apply Hptr in Hw. eapply rtc_l; [exact Hw|exact Hwk].
        -- exists w. split; [apply elem_of_cons; right; exact Hw|exact Hwk].
    + intros w Hw. apply elem_of_cons in Hw as [->|Hw].
      * apply Hmono, is_marked_insert_eq.
      * apply Hwl, elem_of_app. right. exact Hw.
    + intros Hc. apply Hclosed. intros a b Ha Hab.
      destruct (decide (a = o)) as [->|Hne].
      * right. apply elem_of_app. left. apply elem_of_reverse, Hptr, Hab.
      * apply (is_marked_insert_ne ti o _ a Hne) in Ha.
        destruct (Hc a b Ha Hab) as [H|H]; [left; apply Hstep, H|].
        apply elem_of_cons in H as [->|H]; [left; apply is_marked_insert_eq|].
        right. apply elem_of_app. right. exact H.
Qed.

Lemma unmarked_not_marked ti k : unmarked ti -> ~ is_marked ti k.
Proof.
  intros Hu Hk. apply is_marked_header in Hk as (h & Hh & Hm).
  specialize (Hu k h Hh). cbv beta in Hu. congruence.
Qed.

(** [mark], from a map without marks, marks the reachable objects. *)
Lemma mark_reachable fuel rsp stackBegin ti ti' :
  unmarked ti ->
  mark read_word fuel rsp stackBegin ti = Finished ti' ->
  same_objects ti ti' /\
  forall k, is_marked ti' k <-> reachable read_word rsp stackBegin ti k.
Proof.
  intros Hu Hrun. unfold mark in Hrun.
  destruct (mark_loop_marks ti fuel _ ti ti' (same_objects_refl ti) Hrun)
    as (Hs & _ & Hsound & Hroots & Hclosed).
  split; [exact Hs|]. intros k. split.
  - intros Hk. destruct (Hsound k Hk) as [H|(w & Hw & Hwk)].
    + exfalso. exact (unmarked_not_marked ti k Hu H).
    + exists w. split; [|exact Hwk].
      rewrite elem_of_reverse in Hw. apply scan_holds in Hw. exact Hw.
  - intros (r & Hr & Hrk).
    assert (Hc : forall a b, is_marked ti' a -> points_to read_word ti a b -> is_marked ti' b).
    { apply Hclosed. intros a b Ha _. exfalso. exact (unmarked_not_marked ti a Hu Ha). }
    assert (Hmr : is_marked ti' r).
    { apply Hroots, elem_of_reverse, scan_holds. exact Hr. }
    clear Hr. induction Hrk as [r|r a k Hra _ IH]; [exact Hmr|].
    apply IH. eapply Hc; [exact Hmr|exact Hra].
Qed.

Lemma mark_finishes_within fuel rsp stackBegin ti :
  (mark_budget read_word rsp stackBegin ti <= fuel)%nat ->
  exists ti', mark read_word fuel rsp stackBegin ti = Finished ti'.
Proof.
  intros Hfuel. unfold mark. apply (mark_loop_finishes ti).
  - apply same_objects_refl.
  - apply Forall_reverse, Forall_forall. intros k Hk.
    apply list_elem_of_filter in Hk as [Hk _]. exact Hk.
  - pose proof (pending_budget rsp stackBegin ti). lia.
Qed.

End CollectorFacts.

Section SweepFacts.

Lemma filter_agree {A} (P1 P2 : A -> Prop)
    `{!forall x, Decision (P1 x), !forall x, Decision (P2 x)} (l : list A) :
  (forall x, x ∈ l -> P1 x <-> P2 x) -> filter P1 l = filter P2 l.
Proof.
  induction l as [|a l IH]; intros Hagree; [reflexivity|].
  assert (Ha : P1 a <-> P2 a) by (apply Hagree, elem_of_cons; left; reflexivity).
  assert (Hl : filter P1 l = filter P2 l).
  { apply IH. intros x Hx. apply Hagree, elem_of_cons. right. exact Hx. }
  destruct (decide (P1 a)) as [Hp|Hp].
  - rewrite !filter_cons_True by tauto. rewrite Hl. reflexivity.
  - rewrite !filter_cons_False by tauto. exact Hl.
Qed.

Lemma sweep_keys_lookup keys :
  forall ti deleted k,
    NoDup keys ->
    (sweep_keys keys ti deleted).1 !! k
    = if decide (k ∈ keys) then ti !! k ≫= swept else ti !! k.
Proof.
  induction keys as [|key keys IH]; intros ti deleted k Hnd; cbn [sweep_keys].
  { destruct (decide (k ∈ [])) as [H|_]; [apply elem_of_nil in H; contradiction|reflexivity]. }
  apply NoDup_cons in Hnd as [Hkey Hnd].
  assert (Hrest : forall ti1 deleted1,
             ti1 !! key = ti !! key ≫= swept ->
             (forall j, j <> key -> ti1 !! j = ti !! j) ->
             (sweep_keys keys ti1 deleted1).1 !! k
             = if decide (k ∈ key :: keys) then ti !! k ≫= swept else ti !! k).
  { intros ti1 deleted1 Hat Hoff. rewrite IH by exact Hnd.
    destruct (decide (k = key)) as [->|Hne].
    - destruct (decide (key ∈ keys)) as [H|_]; [contradiction|].
      destruct (decide (key ∈ key :: keys)) as [_|H]; [exact Hat|].
      exfalso. apply H, elem_of_cons. left. reflexivity.
    - rewrite (Hoff k Hne).
      destruct (decide (k ∈ keys)) as [H|H];
        destruct (decide (k ∈ key :: keys)) as [H'|H']; try reflexivity.
      + exfalso. apply H', elem_of_cons. right. exact H.
      + exfalso. apply elem_of_cons in H' as [H'|H']; contradiction. }
  destruct (ti !! key) as [h|] eqn:Hk.
  - destruct (marked h) eqn:Hm.
    + apply Hrest.
      * rewrite lookup_insert_eq. cbn. unfold swept. rewrite Hm. reflexivity.
      * intros j Hj. apply lookup_insert_ne. congruence.
    + apply Hrest.
      * rewrite lookup_delete_eq. cbn. unfold swept. rewrite Hm. reflexivity.
      * intros j Hj. apply lookup_delete_ne. congruence.
  - apply Hrest; [exact Hk|reflexivity].
Qed.

Lemma sweep_keys_deleted keys :
  forall ti deleted,
    NoDup keys ->
    (sweep_keys keys ti deleted).2
    = deleted ++ filter (fun k => marked <$> ti !! k = Some false) keys.
Proof.
  induction keys as [|key keys IH]; intros ti deleted Hnd; cbn [sweep_keys].
  { rewrite filter_nil, app_nil_r. reflexivity. }
  apply NoDup_cons in Hnd as [Hkey Hnd].
  assert (Hrest : forall ti1 : gmap Z ObjectHeader,
             (forall j, j <> key -> ti1 !! j = ti !! j) ->
             filter (fun k => marked <$> ti1 !! k = Some false) keys
             = filter (fun k => marked <$> ti !! k = Some false) keys).
  { intros ti1 Hoff. apply filter_agree. intros j Hj.
    rewrite Hoff; [reflexivity|]. intros ->. contradiction. }
  destruct (ti !! key) as [h|] eqn:Hk.
  - destruct (marked h) eqn:Hm.
    + rewrite IH by exact Hnd. rewrite Hrest.
      * rewrite filter_cons_False; [reflexivity|]. rewrite Hk. cbn. rewrite Hm. discriminate.
      * intros j Hj. apply lookup_insert_ne. congruence.
    + rewrite IH by exact Hnd. rewrite Hrest.
      * rewrite filter_cons_True by (rewrite Hk; cbn; rewrite Hm; reflexivity).
        rewrite <- app_assoc. reflexivity.
      * intros j Hj. apply lookup_delete_ne. congruence.
  - rewrite IH by exact Hnd.
    rewrite filter_cons_False; [reflexivity|]. rewrite Hk. discriminate.
Qed.

Lemma keys_in_order_elem ti k : k ∈ keys_in_order ti <-> is_Some (ti !! k).
Proof.
  unfold keys_in_order. rewrite sorting.merge_sort_Permutation, list_elem_of_fmap. split.
  - intros ([j h] & -> & H). apply elem_of_map_to_list in H. cbn. eauto.
  - intros [h H]. exists (k, h). split; [reflexivity|]. apply elem_of_map_to_list, H.
Qed.

Lemma keys_in_order_NoDup ti : NoDup (keys_in_order ti).
Proof.
  unfold keys_in_order. rewrite sorting.merge_sort_Permutation.
  apply NoDup_fst_map_to_list.
Qed.

Lemma StronglySorted_filter {A} (R : relation A) (P : A -> Prop)
    `{!forall x, Decision (P x)} l :
  Sorted.StronglySorted R l -> Sorted.StronglySorted R (filter P l).
Proof.
  induction 1 as [|x l Hl IH Hx].
  - constructor.
  - destruct (decide (P x)) as [Hp|Hp].
    + rewrite filter_cons_True by exact Hp. constructor; [exact IH|].
      apply Forall_forall. intros y Hy. apply list_elem_of_filter in Hy as [_ Hy].
      revert y Hy. apply Forall_forall, Hx.
    + rewrite filter_cons_False by exact Hp. exact IH.
Qed.

Lemma StronglySorted_strict l :
  NoDup l -> Sorted.StronglySorted Z.le l -> Sorted.StronglySorted Z.lt l.
Proof.
  intros Hnd Hs. induction Hs as [|x l Hl IH Hx].
  - constructor.
  - apply NoDup_cons in Hnd as [Hx' Hnd]. constructor; [apply IH, Hnd|].
    apply Forall_forall. intros y Hy.
    pose proof (proj1 (Forall_forall _ _) Hx y Hy) as Hle.
    assert (x <> y) by (intros ->; contradiction). lia.
Qed.

Lemma sweep_lookup ti k : (sweep ti).1 !! k = ti !! k ≫= swept.
Proof.
  unfold sweep. rewrite sweep_keys_lookup by apply keys_in_order_NoDup.
  destruct (decide (k ∈ keys_in_order ti)) as [_|H]; [reflexivity|].
  rewrite keys_in_order_elem in H.
  destruct (ti !! k) as [h|]; [|reflexivity]. exfalso. apply H. eauto.
Qed.

Lemma sweep_deleted_elem ti k :
  k ∈ (sweep ti).2 <-> marked <$> ti !! k = Some false.
Proof.
  unfold sweep. rewrite sweep_keys_deleted by apply keys_in_order_NoDup.
  rewrite app_nil_l, list_elem_of_filter, keys_in_order_elem. split; [tauto|].
  intros H. split; [exact H|]. destruct (ti !! k); [eauto|discriminate].
Qed.

Lemma sweep_deleted_sorted ti : Sorted.StronglySorted Z.lt (sweep ti).2.
Proof.
  unfold sweep. rewrite sweep_keys_deleted by apply keys_in_order_NoDup.
  rewrite app_nil_l. apply StronglySorted_filter, StronglySorted_strict.
  - apply keys_in_order_NoDup.
  - apply sorting.StronglySorted_merge_sort; apply _.
Qed.

End SweepFacts.

Section CollectionFacts.

Variable read_word : Z -> Z.

Lemma reachable_is_key rsp stackBegin ti k :
  reachable read_word rsp stackBegin ti k -> is_Some (ti !! k).
Proof.
  intros (r & Hr & Hrk).
  apply rtc_inv_r in Hrk as [<-|(b & _ & (h & _ & Hb & _))]; [exact (proj1 Hr)|exact Hb].
Qed.

Lemma unmarked_header ti k h : unmarked ti -> ti !! k = Some h -> h = mkHeader false (size h).
Proof.
  intros Hu Hk. specialize (Hu k h Hk). cbv beta in Hu. destruct h as [m sz].
  cbn in *. congruence.
Qed.

Lemma gc_Finished fuel rsp stackBegin ti ti' deleted :
  unmarked ti ->
  gc read_word fuel rsp stackBegin ti = Finished (ti', deleted) ->
  (forall k h, ti' !! k = Some h <->
     ti !! k = Some h /\ reachable read_word rsp stackBegin ti k) /\
  (forall k, k ∈ deleted <->
     is_Some (ti !! k) /\ ~ reachable read_word rsp stackBegin ti k) /\
  Sorted.StronglySorted Z.lt deleted.
Proof.
  intros Hu Hrun. unfold gc in Hrun.
  destruct (mark read_word fuel rsp stackBegin ti) as [ti1| |] eqn:Hmark; try discriminate.
  injection Hrun as Hsweep.
  destruct (mark_reachable read_word fuel rsp stackBegin ti ti1 Hu Hmark) as [Hs Hreach].
  assert (Hti' : ti' = (sweep ti1).1) by (rewrite Hsweep; reflexivity).
  assert (Hdel : deleted = (sweep ti1).2) by (rewrite Hsweep; reflexivity).
  clear Hsweep. subst ti' deleted.
  assert (Hhdr : forall k h1, ti1 !! k = Some h1 ->
            ti !! k = Some (mkHeader false (size h1))).
  { intros k h1 Hk. destruct (same_objects_header ti ti1 k h1 Hs Hk) as (h0 & Hk0 & Hsz).
    rewrite Hk0, <- Hsz. f_equal. apply (unmarked_header ti k), Hk0. exact Hu. }
  split; [|split].
  - intros k h. rewrite sweep_lookup. split.
    + destruct (ti1 !! k) as [h1|] eqn:Hk; [|discriminate]. cbn. unfold swept.
      destruct (marked h1) eqn:Hm; [|discriminate]. intros [= <-].
      split; [apply Hhdr, Hk|]. apply Hreach, is_marked_header. eauto.
    + intros [Hk Hr]. apply Hreach, is_marked_header in Hr as (h1 & Hk1 & Hm).
      rewrite Hk1. cbn. unfold swept. rewrite Hm.
      apply Hhdr in Hk1. congruence.
  - intros k. rewrite sweep_deleted_elem. split.
    + destruct (ti1 !! k) as [h1|] eqn:Hk; [|discriminate]. cbn. intros [= Hm].
      split; [rewrite (Hhdr k h1 Hk); eauto|].
      intros Hr. apply Hreach, is_marked_header in Hr as (h2 & Hk2 & Hm2). congruence.
    + intros [Hk Hr]. apply (same_objects_keys ti ti1 k Hs) in Hk as [h1 Hk1].
      rewrite Hk1. cbn. destruct (marked h1) eqn:Hm; [|reflexivity].
      exfalso. apply Hr, Hreach, is_marked_header. eauto.
  - apply sweep_deleted_sorted.
Qed.

Lemma gc_finishes fuel rsp stackBegin ti :
  (mark_budget read_word rsp stackBegin ti <= fuel)%nat ->
  exists ti' deleted, gc read_word fuel rsp stackBegin ti = Finished (ti', deleted).
Proof.
  intros Hfuel. unfold gc.
  destruct (mark_finishes_within read_word fuel rsp stackBegin ti Hfuel) as [ti1 ->].
  exists (sweep ti1).1, (sweep ti1).2. destruct (sweep ti1). reflexivity.
Qed.

End CollectionFacts.

(** ** The collector as a whole *)

(** X24. [sweep] leaves in [traceInfo] exactly the objects whose header
    was marked, each with its mark cleared and its size unchanged; every
    other key is erased. *)
Theorem sweep_keeps_the_marked_headers ti k h' :
  (sweep ti).1 !! k = Some h' <->
  exists h, ti !! k = Some h /\ marked h = true /\ h' = mkHeader false (size h).
Proof.
  rewrite sweep_lookup. split.
  - destruct (ti !! k) as [h|]; [|discriminate]. cbn. unfold swept.
    destruct (marked h) eqn:Hm; [|discriminate]. intros [= <-].
    exists h. split; [reflexivity|]. split; [exact Hm|reflexivity].
  - intros (h & -> & Hm & ->). cbn. unfold swept. rewrite Hm. reflexivity.
Qed.

(** X25. [sweep] hands to [delete] exactly the objects whose header was
    not marked, each of them once, in the order of their addresses. *)
Theorem sweep_deletes_the_unmarked_in_address_order ti :
  Sorted.StronglySorted Z.lt (sweep ti).2 /\
  forall k, k ∈ (sweep ti).2 <-> exists h, ti !! k = Some h /\ marked h = false.
Proof.
  split; [apply sweep_deleted_sorted|]. intros k. rewrite sweep_deleted_elem. split.
  - destruct (ti !! k) as [h|]; [|discriminate]. cbn. intros [= Hm]. eauto.
  - intros (h & -> & Hm). cbn. rewrite Hm. reflexivity.
Qed.

(** X26. From any state of the marks, [mark] never throws out of
    [getHeader] and ends within [mark_budget] turns of its loop; it adds
    and removes no header, changes no size and clears no mark. *)
Theorem mark_finishes_within_budget read_word fuel rsp stackBegin ti :
  (mark_budget read_word rsp stackBegin ti <= fuel)%nat ->
  exists ti',
    mark read_word fuel rsp stackBegin ti = Finished ti' /\
    same_objects ti ti' /\
    forall k, is_marked ti k -> is_marked ti' k.
Proof.
  intros Hfuel.
  destruct (mark_finishes_within read_word fuel rsp stackBegin ti Hfuel) as [ti' Hrun].
  exists ti'. split; [exact Hrun|]. unfold mark in Hrun.
  destruct (mark_loop_marks read_word ti fuel _ ti ti' (same_objects_refl ti) Hrun)
    as (Hs & Hmono & _).
  split; [exact Hs|exact Hmono].
Qed.

Lemma mark_finishes_within_budget_witness :
  exists ti',
    mark graph_read 100 5000 5016 graph_traceInfo = Finished ti' /\
    same_objects graph_traceInfo ti' /\
    forall k, is_marked graph_traceInfo k -> is_marked ti' k.
Proof.
  apply (mark_finishes_within_budget graph_read 100 5000 5016 graph_traceInfo).
  vm_compute. lia.
Defined.

(** X27. When no header is marked at the start, [mark] marks exactly the
    objects that can be reached from an address on the stack through
    addresses held in the bytes of reached objects. *)
Theorem mark_marks_the_reachable read_word fuel rsp stackBegin ti ti' :
  unmarked ti ->
  mark read_word fuel rsp stackBegin ti = Finished ti' ->
  forall k, is_marked ti' k <-> reachable read_word rsp stackBegin ti k.
Proof.
  intros Hu Hrun.
  exact (proj2 (mark_reachable read_word fuel rsp stackBegin ti ti' Hu Hrun)).
Qed.

Lemma mark_marks_the_reachable_witness :
  mark graph_read 100 5000 5016 graph_traceInfo = Finished graph_marked /\
  (is_marked graph_marked 1600 <-> reachable graph_read 5000 5016 graph_traceInfo 1600).
Proof.
  split; [vm_compute; reflexivity|].
  apply (mark_marks_the_reachable graph_read 100 5000 5016 graph_traceInfo graph_marked).
  - apply (bool_decide_unpack _). vm_compute. exact I.
  - vm_compute. reflexivity.
Defined.

(** X28. A collection that starts without marks and has the fuel of
    [mark_budget] finishes: it keeps exactly the reachable objects, with
    the headers they had, and deletes every other object once, in the
    order of the addresses. *)
Theorem gc_keeps_the_reachable read_word fuel rsp stackBegin ti :
  unmarked ti ->
  (mark_budget read_word rsp stackBegin ti <= fuel)%nat ->
  exists ti' deleted,
    gc read_word fuel rsp stackBegin ti = Finished (ti', deleted) /\
    (forall k h, ti' !! k = Some h <->
       ti !! k = Some h /\ reachable read_word rsp stackBegin ti k) /\
    (forall k, k ∈ deleted <->
       is_Some (ti !! k) /\ ~ reachable read_word rsp stackBegin ti k) /\
    Sorted.StronglySorted Z.lt deleted.
Proof.
  intros Hu Hfuel.
  destruct (gc_finishes read_word fuel rsp stackBegin ti Hfuel) as (ti' & deleted & Hrun).
  exists ti', deleted. split; [exact Hrun|].
  exact (gc_Finished read_word fuel rsp stackBegin ti ti' deleted Hu Hrun).
Qed.

Lemma gc_keeps_the_reachable_witness :
  exists ti' deleted,
    gc graph_read 100 5000 5016 graph_traceInfo = Finished (ti', deleted) /\
    (forall k h, ti' !! k = Some h <->
       graph_traceInfo !! k = Some h /\ reachable graph_read 5000 5016 graph_traceInfo k) /\
    (forall k, k ∈ deleted <->
       is_Some (graph_traceInfo !! k) /\ ~ reachable graph_read 5000 5016 graph_traceInfo k) /\
    Sorted.StronglySorted Z.lt deleted.
Proof.
  apply (gc_keeps_the_reachable graph_read 100 5000 5016 graph_traceInfo).
  - apply (bool_decide_unpack _). vm_compute. exact I.
  - vm_compute. lia.
Defined.

(** X29. A second collection, over the same stack and the same object
    contents, deletes nothing and leaves [traceInfo] as the first one
    left it. *)
Theorem gc_again_deletes_nothing read_word fuel fuel' rsp stackBegin ti ti' deleted :
  unmarked ti ->
  gc read_word fuel rsp stackBegin ti = Finished (ti', deleted) ->
  (mark_budget read_word rsp stackBegin ti' <= fuel')%nat ->
  gc read_word fuel' rsp stackBegin ti' = Finished (ti', []).
Proof.
  intros Hu Hrun Hfuel.
  destruct (gc_Finished read_word fuel rsp stackBegin ti ti' deleted Hu Hrun) as (Hkept & _ & _).
  assert (Hu' : unmarked ti').
  { intros k h Hk. apply Hkept in Hk as [Hk _]. exact (Hu k h Hk). }
  assert (Hreach : forall k, reachable read_word rsp stackBegin ti k ->
                             reachable read_word rsp stackBegin ti' k).
  { intros k (r & Hr & Hrk). exists r.
    assert (Hin : forall j, reachable read_word rsp stackBegin ti j -> is_Some (ti' !! j)).
    { intros j Hj. destruct (reachable_is_key read_word rsp stackBegin ti j Hj) as [h Hh].
      exists h. apply Hkept. split; [exact Hh|exact Hj]. }
    assert (Hroot : reachable read_word rsp stackBegin ti r).
    { exists r. split; [exact Hr|apply rtc_refl]. }
    split.
    - split; [apply Hin, Hroot|exact (proj2 Hr)].
    - revert k Hrk. apply (rtc_ind_r (fun k => rtc (points_to read_word ti') r k));
        [apply rtc_refl|]. intros a k Hra Hak IH.
      eapply rtc_r; [exact IH|].
      assert (Ha : reachable read_word rsp stackBegin ti a).
      { exists r. split; [exact Hr|exact Hra]. }
      assert (Hk : reachable read_word rsp stackBegin ti k).
      { exists r. split; [exact Hr|]. eapply rtc_r; [exact Hra|exact Hak]. }
      destruct Hak as (h & Hh & _ & Hword). exists h. split.
      + apply Hkept. split; [exact Hh|exact Ha].
      + split; [apply Hin, Hk|exact Hword]. }
  destruct (gc_finishes read_word fuel' rsp stackBegin ti' Hfuel) as (ti2 & deleted2 & Hrun2).
  destruct (gc_Finished read_word fuel' rsp stackBegin ti' ti2 deleted2 Hu' Hrun2)
    as (Hkept2 & Hdel2 & _).
  rewrite Hrun2. f_equal. f_equal.
  - apply map_eq. intros k. apply option_eq. intros h. rewrite Hkept2. split; [tauto|].
    intros Hk. split; [exact Hk|]. apply Hreach. apply Hkept in Hk. tauto.
  - destruct deleted2 as [|k l]; [reflexivity|]. exfalso.
    destruct (proj1 (Hdel2 k)) as [[h Hk] Hno]; [apply elem_of_cons; left; reflexivity|].
    apply Hno, Hreach. apply Hkept in Hk. tauto.
Qed.

Lemma gc_again_deletes_nothing_witness :
  gc graph_read 100 5000 5016 graph_survivors = Finished (graph_survivors, []).
Proof.
  apply (gc_again_deletes_nothing graph_read 100 100 5000 5016 graph_traceInfo
           graph_survivors [1000; 1100; 1200; 1300; 1400; 1500]).
  - apply (bool_decide_unpack _). vm_compute. exact I.
  - vm_compute. reflexivity.
  - vm_compute. lia.
Defined.

(** X30. When the recorded begin of the stack is not above the stack
    pointer, as it is when [gcInit] has not run, [getRoots] finds nothing
    and a collection deletes every object. *)
Theorem gc_without_stack_deletes_everything read_word fuel rsp stackBegin ti :
  stackBegin <= rsp ->
  unmarked ti ->
  (0 < fuel)%nat ->
  exists deleted,
    gc read_word fuel rsp stackBegin ti = Finished (∅, deleted) /\
    forall k, k ∈ deleted <-> is_Some (ti !! k).
Proof.
  intros Hstack Hu Hfuel.
  assert (Hroots : getRoots read_word rsp stackBegin ti = []).
  { unfold getRoots, scan, seqZ. replace (Z.to_nat (stackBegin - rsp)) with 0%nat by lia.
    reflexivity. }
  destruct fuel as [|fuel]; [lia|].
  exists (sweep ti).2. unfold gc, mark. rewrite Hroots. cbn [reverse rev_append mark_loop].
  split.
  - f_equal. rewrite (surjective_pairing (sweep ti)). f_equal.
    apply map_eq. intros k. rewrite sweep_lookup, lookup_empty.
    destruct (ti !! k) as [h|] eqn:Hk; [|reflexivity]. cbn. unfold swept.
    rewrite (Hu k h Hk). reflexivity.
  - intros k. rewrite sweep_deleted_elem. split.
    + destruct (ti !! k); [eauto|discriminate].
    + intros [h Hk]. rewrite Hk. cbn. rewrite (Hu k h Hk). reflexivity.
Qed.

Lemma gc_without_stack_deletes_everything_witness :
  exists deleted,
    gc graph_read 1 5000 0 graph_traceInfo = Finished (∅, deleted) /\
    forall k, k ∈ deleted <-> is_Some (graph_traceInfo !! k).
Proof.
  apply (gc_without_stack_deletes_everything graph_read 1 5000 0 graph_traceInfo).
  - lia.
  - apply (bool_decide_unpack _). vm_compute. exact I.
  - lia.
Defined.
